(** * The ghc-mod backend of SublimeHaskell: session client, output
    translation and project registry

  A shallow embedding of [ghcimod/backend.py] and of the part of
  [internals/proc_helper.py] it starts its subprocess with, followed by the
  properties of the interactive session protocol that hold of it.

  Python text is [string]; a character is a code point below 256, so the
  character classes below are Python's restricted to Latin-1.  Mutable
  objects are threaded explicitly: every operation takes the object and
  returns its outcome together with the object as it is afterwards, also
  when the outcome is an exception. *)

From Stdlib Require Import String Ascii List ZArith NArith Lia Bool.
From stdpp Require Import gmap strings list.

(** ** Python values, exceptions and built-ins *)

Module Py.

(** The exceptions the modelled code can raise. *)
Inductive exn : Type :=
| OSError
| AttributeError
| ValueError
| TypeError
| IndexError.

(** Outcome of evaluating a Python expression or statement. *)
Inductive result (A : Type) : Type :=
| Ret (a : A)
| Raise (e : exn).
Arguments Ret {A} a.
Arguments Raise {A} e.

Definition raised {A : Type} (r : result A) : bool :=
  match r with Ret _ => false | Raise _ => true end.

(** A computation over a mutable object of type [S]. *)
Definition M (S A : Type) : Type := S -> result A * S.

Definition ret {S A : Type} (a : A) : M S A := fun s => (Ret a, s).

Definition raise {S A : Type} (e : exn) : M S A := fun s => (Raise e, s).

Definition bind {S A B : Type} (m : M S A) (k : A -> M S B) : M S B :=
  fun s =>
    match m s with
    | (Ret a, s') => k a s'
    | (Raise e, s') => (Raise e, s')
    end.

(** [try: body / except OSError: handler]. *)
Definition try_except_OSError {S A : Type} (body handler : M S A) : M S A :=
  fun s =>
    match body s with
    | (Raise OSError, s') => handler s'
    | other => other
    end.

(** [try: body / finally: cleanup]: the cleanup always runs; an exception
    of the cleanup replaces the outcome of the body. *)
Definition try_finally {S A : Type} (body : M S A) (cleanup : M S unit) : M S A :=
  fun s =>
    match body s with
    | (r, s') =>
        match cleanup s' with
        | (Ret _, s'') => (r, s'')
        | (Raise e, s'') => (Raise e, s'')
        end
    end.

(** [str.isspace] on one character: the Unicode white space below 256. *)
Definition is_space (c : ascii) : bool :=
  let n := N_of_ascii c in
  ((9 <=? n) && (n <=? 13) || (28 <=? n) && (n <=? 32)
   || (n =? 133) || (n =? 160))%N.

(** [s.rstrip()]: trailing white space removed. *)
Fixpoint rstrip (s : string) : string :=
  match s with
  | EmptyString => EmptyString
  | String c t =>
      match rstrip t with
      | EmptyString => if is_space c then EmptyString else String c EmptyString
      | t' => String c t'
      end
  end.

(** [s[0:n]]. *)
Fixpoint take (n : nat) (s : string) : string :=
  match n, s with
  | S n', String c t => String c (take n' t)
  | _, _ => EmptyString
  end.

(** [s[n:]]. *)
Fixpoint drop (n : nat) (s : string) : string :=
  match n, s with
  | S n', String _ t => drop n' t
  | _, _ => s
  end.

(** [c.lower()] for one character. *)
Definition lower_char (c : ascii) : ascii :=
  let n := N_of_ascii c in
  if ((65 <=? n) && (n <=? 90)
      || (192 <=? n) && (n <=? 222) && negb (n =? 215))%N
  then ascii_of_N (n + 32) else c.

(** [s.lower()]. *)
Fixpoint lower (s : string) : string :=
  match s with
  | EmptyString => EmptyString
  | String c t => String (lower_char c) (lower t)
  end.

(** [s.startswith(p)]. *)
Definition startswith (s p : string) : bool := String.prefix p s.

(** [sep.join(l)]. *)
Fixpoint join (sep : string) (l : list string) : string :=
  match l with
  | [] => EmptyString
  | [x] => x
  | x :: rest => x +:+ sep +:+ join sep rest
  end.

Definition str_eqb (a b : string) : bool := bool_decide (a = b).

End Py.

Export Py.

Declare Scope py_scope.
Delimit Scope py_scope with py.
Notation "'do' x <- m ; k" := (bind m (fun x => k))
(at level 10, x pattern, m at level 100, k at level 200) : py_scope.
Notation "m ;; k" := (bind m (fun _ => k))
(at level 100, k at level 200, right associativity) : py_scope.
Open Scope py_scope.

(** ** The interactive session client: [GHCModClient] *)

Module Client.

(** What one [readline] on the subprocess's standard output yields.  A
    pending list that has run out is the end of the stream, where
    [readline] returns the empty string. *)
Inductive read_event : Type :=
| Line (text : string)
| ReadFails.

(** The subprocess as the client sees it: the text its input pipe has
    accepted, whether each coming [write] or [flush] on that pipe raises
    [OSError] ([true]; none left: it succeeds), and what the coming
    [readline] calls on its output return. *)
Record Popen : Type := mkPopen {
  stdin_sent : list string;
  stdin_faults : list bool;
  stdout_pending : list read_event
}.

(** [ProcHelper]: the process handle, or the reason there is none. *)
Record ProcHelper : Type := mkProcHelper {
  process : option Popen;
  process_err : option string
}.

Inductive Lock : Type := MkLock.

(** [OutputCollector.DescriptorDrain]: the thread draining standard error. *)
Record DescriptorDrain : Type := mkDrain {
  drain_label : string;
  drain_alive : bool
}.

(** The attributes of a [GHCModClient], and the text the client has put on
    the host's [sys.stdout]. *)
Record GHCModClient : Type := mkClient {
  ghcmod : option ProcHelper;
  action_lock : option Lock;
  stderr_drain : option DescriptorDrain;
  console : list string
}.

Definition GHCMOD_OUTPUT_MARKER : string := "O: ".
Definition GHCMOD_ERROR_MARKER : string := "X: ".

(** A reply: the normal-channel and the error-channel lines. *)
Definition reply : Type := list string * list string.

(** One [write] or [flush] on the input pipe consumes one fault flag. *)
Definition pipe_op (text : option string) (p : Popen) : result unit * Popen :=
  let sent := match text with
              | Some s => stdin_sent p ++ [s]
              | None => stdin_sent p
              end in
  match stdin_faults p with
  | true :: rest => (Raise OSError, mkPopen (stdin_sent p) rest (stdout_pending p))
  | false :: rest => (Ret tt, mkPopen sent rest (stdout_pending p))
  | [] => (Ret tt, mkPopen sent [] (stdout_pending p))
  end.

Definition set_process (c : GHCModClient) (p : Popen) : GHCModClient :=
  match ghcmod c with
  | Some ph =>
      mkClient (Some (mkProcHelper (Some p) (process_err ph)))
               (action_lock c) (stderr_drain c) (console c)
  | None => c
  end.

(** Evaluating [self.ghcmod.process.stdin] (or [.stdout]) and using it:
    [AttributeError] when [self.ghcmod] or its [process] is [None]. *)
Definition on_process {A : Type} (op : Popen -> result A * Popen)
  : M GHCModClient A :=
  fun c =>
    match ghcmod c with
    | None => (Raise AttributeError, c)
    | Some ph =>
        match process ph with
        | None => (Raise AttributeError, c)
        | Some p => let '(r, p') := op p in (r, set_process c p')
        end
    end.

(** [self.ghcmod.process.stdin.write(text)]. *)
Definition stdin_write (text : string) : M GHCModClient unit :=
  on_process (pipe_op (Some text)).

(** [self.ghcmod.process.stdin.flush()]. *)
Definition stdin_flush : M GHCModClient unit :=
  on_process (pipe_op None).

Definition LF : ascii := "010"%char.
Definition EOT : ascii := "004"%char.
Definition newline : string := String LF EmptyString.

(** [print(text, file=self.ghcmod.process.stdin, flush=fl)]: the text, the
    line end, then the flush when asked for.  The file argument is
    evaluated once, before anything is written. *)
Definition print_stdin (text : string) (fl : bool) : M GHCModClient unit :=
  on_process (fun p =>
    match pipe_op (Some text) p with
    | (Raise e, p1) => (Raise e, p1)
    | (Ret _, p1) =>
        match pipe_op (Some newline) p1 with
        | (Raise e, p2) => (Raise e, p2)
        | (Ret _, p2) => if fl then pipe_op None p2 else (Ret tt, p2)
        end
    end).

(** [sys.stdout.write(text)]. *)
Definition sys_stdout_write (text : list string) : M GHCModClient unit :=
  fun c => (Ret tt, mkClient (ghcmod c) (action_lock c) (stderr_drain c)
                             (console c ++ text)).

(** The first statement of [shutdown]: the blank line that ends the
    session, [OSError] ignored. *)
Definition send_blank_line : M GHCModClient unit :=
  fun c =>
    match ghcmod c with
    | Some _ => try_except_OSError (print_stdin "" true) (ret tt) c
    | None => (Ret tt, c)
    end.

(** The second statement of [shutdown]: stop and join a live drain. *)
Definition stop_drain : M GHCModClient unit :=
  fun c =>
    match stderr_drain c with
    | Some d =>
        if drain_alive d
        then (Ret tt, mkClient (ghcmod c) (action_lock c)
                               (Some (mkDrain (drain_label d) false)) (console c))
        else (Ret tt, c)
    | None => (Ret tt, c)
    end.

(** The last three statements of [shutdown]. *)
Definition forget_session : M GHCModClient unit :=
  fun c => (Ret tt, mkClient None None None (console c)).

(** [GHCModClient.shutdown]. *)
Definition shutdown : M GHCModClient unit :=
  send_blank_line ;; stop_drain ;; forget_session.

(** How the loop of [read_response] ended: whether [readline] raised
    [OSError], the two accumulated channels, what the loop wrote to
    [sys.stdout], and the reads still pending. *)
Record loop_end : Type := mkLoopEnd {
  le_oserror : bool;
  le_stdout : list string;
  le_stderr : list string;
  le_console : list string;
  le_pending : list read_event
}.

(** The [while not got_reply] loop of [read_response]; every iteration
    consumes one read, and the end of the stream ends the loop. *)
Fixpoint read_loop (pending : list read_event)
    (resp_stdout resp_stderr : list string) : loop_end :=
  match pending with
  | [] => mkLoopEnd false resp_stdout resp_stderr [] []
  | ReadFails :: rest => mkLoopEnd true resp_stdout resp_stderr [] rest
  | Line resp :: rest =>
      if str_eqb resp "" then mkLoopEnd false resp_stdout resp_stderr [] rest
      else
        let prefix := take 3 resp in
        let resp := drop 3 (rstrip resp) in
        if str_eqb prefix GHCMOD_OUTPUT_MARKER then
          if str_eqb resp "OK"
          then mkLoopEnd false resp_stdout resp_stderr [] rest
          else read_loop rest (resp_stdout ++ [rstrip resp]) resp_stderr
        else if str_eqb prefix GHCMOD_ERROR_MARKER then
          read_loop rest resp_stdout (resp_stderr ++ [rstrip resp])
        else if str_eqb prefix "NG " then
          mkLoopEnd false resp_stdout resp_stderr
                    ["Error response: " +:+ resp] rest
        else
          mkLoopEnd false resp_stdout resp_stderr
                    ["Unexpected reply from ghc-mod client: " +:+ resp] rest
  end.

(** Running the loop on [self.ghcmod.process.stdout]. *)
Definition run_read_loop : M GHCModClient loop_end :=
  on_process (fun p =>
    let e := read_loop (stdout_pending p) [] [] in
    (Ret e, mkPopen (stdin_sent p) (stdin_faults p) (le_pending e))).

(** [GHCModClient.read_response]: an [OSError] of the loop shuts the
    session down, and the lines accumulated so far are returned. *)
Definition read_response : M GHCModClient reply :=
  do e <- run_read_loop;
  sys_stdout_write (le_console e) ;;
  (if le_oserror e then shutdown else ret tt) ;;
  ret (le_stdout e, le_stderr e).

(** [with self.action_lock: body]; [None] is no context manager. *)
Definition with_action_lock {A : Type} (body : M GHCModClient A)
  : M GHCModClient A :=
  fun c =>
    match action_lock c with
    | Some _ => body c
    | None => (Raise AttributeError, c)
    end.

(** The [except OSError] clause shared by the three commands. *)
Definition on_oserror : M GHCModClient reply :=
  shutdown ;; ret ([], []).

(** [GHCModClient.command_backend]. *)
Definition command_backend (cmd : string) : M GHCModClient reply :=
  with_action_lock
    (try_except_OSError (print_stdin cmd true ;; read_response) on_oserror).

(** [GHCModClient.map_file]. *)
Definition map_file (file contents : string) : M GHCModClient reply :=
  with_action_lock
    (try_except_OSError
       (print_stdin ("map-file " +:+ file) false ;;
        stdin_write contents ;;
        stdin_write (newline +:+ String EOT newline) ;;
        stdin_flush ;;
        read_response)
       on_oserror).

(** [GHCModClient.unmap_file]. *)
Definition unmap_file (file : string) : M GHCModClient reply :=
  with_action_lock
    (try_except_OSError
       (print_stdin ("unmap-file " +:+ file) true ;; read_response) on_oserror).

End Client.

(** ** Reply streams as the wire protocol describes them *)

Module Wire.
Import Client.

Inductive channel : Type := Normal | Error.

Definition marker (ch : channel) : string :=
  match ch with
  | Normal => GHCMOD_OUTPUT_MARKER
  | Error => GHCMOD_ERROR_MARKER
  end.

(** A line of a reply: its channel and its text. *)
Definition entry : Type := channel * string.

(** The [readline] result that carries an entry. *)
Definition reply_line (e : entry) : read_event :=
  Line (marker (fst e) +:+ snd e +:+ newline).

(** The line that ends a reply. *)
Definition terminator : read_event := Line ("O: OK" +:+ newline).

Definition is_channel (ch : channel) (e : entry) : bool :=
  match ch, fst e with
  | Normal, Normal | Error, Error => true
  | _, _ => false
  end.

(** The texts of the entries of one channel, in order. *)
Fixpoint channel_lines (ch : channel) (es : list entry) : list string :=
  match es with
  | [] => []
  | e :: rest =>
      if is_channel ch e then snd e :: channel_lines ch rest
      else channel_lines ch rest
  end.

(** An entry does not end the reply. *)
Definition not_terminator (e : entry) : Prop :=
  fst e = Normal -> rstrip (snd e) <> "OK".

Definition strip_entry (e : entry) : entry := (fst e, rstrip (snd e)).

(** A client with a running subprocess. *)
Definition live_client (p : Popen) (perr : option string) (d : option DescriptorDrain)
    (out : list string) : GHCModClient :=
  mkClient (Some (mkProcHelper (Some p) perr)) (Some MkLock) d out.

(** The session has been discarded. *)
Definition is_dead (c : GHCModClient) : bool :=
  match ghcmod c, action_lock c, stderr_drain c with
  | None, None, None => true
  | _, _, _ => false
  end.

(** The three operations of a session. *)
Inductive operation : Type :=
| Command (cmd : string)
| MapFile (file contents : string)
| UnmapFile (file : string).

Definition run (op : operation) : M GHCModClient reply :=
  match op with
  | Command cmd => command_backend cmd
  | MapFile file contents => map_file file contents
  | UnmapFile file => unmap_file file
  end.

(** How many [write] and [flush] calls an operation makes before it reads. *)
Definition pipe_ops (op : operation) : nat :=
  match op with
  | Command _ => 3
  | MapFile _ _ => 5
  | UnmapFile _ => 3
  end.

(** One of the first [n] calls on the input pipe raises [OSError]. *)
Definition write_fails (n : nat) (p : Popen) : bool :=
  existsb (fun b : bool => b) (firstn n (stdin_faults p)).

(** An [OSError] while an operation writes, or while it reads entries
    that do not end the reply, and the reply the operation then returns:
    nothing when a write fails, the entries read when a read fails. *)
Inductive io_failure (op : operation) (p : Popen) : reply -> Prop :=
| WriteFailure :
    write_fails (pipe_ops op) p = true ->
    io_failure op p ([], [])
| ReadFailure (es : list entry) (rest : list read_event) :
    write_fails (pipe_ops op) p = false ->
    stdout_pending p = map reply_line es ++ ReadFails :: rest ->
    Forall not_terminator es ->
    io_failure op p (channel_lines Normal (map strip_entry es),
                     channel_lines Error (map strip_entry es)).

End Wire.

(** ** Regular expressions: the part of [re] the backend's patterns use *)

Module Re.

(** Patterns.  [LineStart] and [LineEnd] are [^] and [$] as compiled with
    [re.MULTILINE]; [Star] is the greedy [*]. *)
Inductive regex : Type :=
| Eps
| Chr (p : ascii -> bool)
| Seq (r1 r2 : regex)
| Alt (r1 r2 : regex)
| Star (r : regex)
| Group (name : string) (r : regex)
| LineStart
| LineEnd.

(** The names of the groups of a pattern. *)
Fixpoint groups (r : regex) : list string :=
  match r with
  | Seq r1 r2 | Alt r1 r2 => groups r1 ++ groups r2
  | Star r1 => groups r1
  | Group name r1 => name :: groups r1
  | _ => []
  end.

(** [r+]. *)
Definition plus (r : regex) : regex := Seq r (Star r).

(** [r?]. *)
Definition opt (r : regex) : regex := Alt r Eps.

Definition seq_of (rs : list regex) : regex := fold_right Seq Eps rs.

(** A literal text. *)
Fixpoint lit (s : string) : regex :=
  match s with
  | EmptyString => Eps
  | String c t => Seq (Chr (Ascii.eqb c)) (lit t)
  end.

Definition LF : ascii := "010"%char.

(** [\s], [\S], [\d], [\w] and [.] on text patterns, below code point 256. *)
Definition space : ascii -> bool := is_space.
Definition non_space (c : ascii) : bool := negb (is_space c).
Definition digit (c : ascii) : bool :=
  let n := N_of_ascii c in ((48 <=? n) && (n <=? 57))%N.
Definition word (c : ascii) : bool :=
  let n := N_of_ascii c in
  ((48 <=? n) && (n <=? 57) || (65 <=? n) && (n <=? 90) || (n =? 95)
   || (97 <=? n) && (n <=? 122)
   || (n =? 170) || (n =? 178) || (n =? 179) || (n =? 181)
   || (n =? 185) || (n =? 186) || (188 <=? n) && (n <=? 190)
   || (192 <=? n) && (n <=? 214) || (216 <=? n) && (n <=? 246)
   || (248 <=? n))%N.
Definition dot (c : ascii) : bool := negb (Ascii.eqb c LF).
Definition one_of (s : string) (c : ascii) : bool :=
  existsb (Ascii.eqb c) (list_ascii_of_string s).

(** The matcher's state: the character before the position, the text
    from the position on, and the groups captured so far. *)
Record mstate : Type := mkState {
  prev : option ascii;
  rest : string;
  caps : gmap string string
}.

Definition at_line_start (st : mstate) : bool :=
  match prev st with
  | None => true
  | Some c => Ascii.eqb c LF
  end.

Definition at_line_end (st : mstate) : bool :=
  match rest st with
  | EmptyString => true
  | String c _ => Ascii.eqb c LF
  end.

(** The text between two positions of one subject. *)
Definition consumed (st st1 : mstate) : string :=
  take (String.length (rest st) - String.length (rest st1)) (rest st).

Definition capture (name : string) (st st1 : mstate) : mstate :=
  mkState (prev st1) (rest st1) (<[name := consumed st st1]> (caps st1)).

(** The backtracking matcher: [exec r st k] is the first way, in the
    order [re] tries them, to match [r] at [st] such that the rest of the
    pattern [k] succeeds.  An iteration of [Star] that consumes nothing is
    not continued; the patterns below have none. *)
Fixpoint exec (r : regex) (st : mstate) (k : mstate -> option mstate)
    {struct r} : option mstate :=
  match r with
  | Eps => k st
  | Chr p =>
      match rest st with
      | String c t => if p c then k (mkState (Some c) t (caps st)) else None
      | EmptyString => None
      end
  | Seq r1 r2 => exec r1 st (fun st1 => exec r2 st1 k)
  | Alt r1 r2 =>
      match exec r1 st k with
      | Some res => Some res
      | None => exec r2 st k
      end
  | Star r1 =>
      (fix iterate (fuel : nat) (st : mstate) {struct fuel} : option mstate :=
         match fuel with
         | O => k st
         | S fuel' =>
             match exec r1 st (fun st1 =>
                     if String.length (rest st1) <? String.length (rest st)
                     then iterate fuel' st1 else None) with
             | Some res => Some res
             | None => k st
             end
         end) (String.length (rest st)) st
  | Group name r1 => exec r1 st (fun st1 => k (capture name st st1))
  | LineStart => if at_line_start st then k st else None
  | LineEnd => if at_line_end st then k st else None
  end.

(** A match object, as far as the backend reads it: its groups. *)
Abbreviation match_object := (gmap string string).

(** [m.group(name)]; [None] for a group that took no part in the match. *)
Definition group (m : match_object) (name : string) : option string := m !! name.

(** [pattern.match(s)]. *)
Definition re_match (r : regex) (s : string) : option match_object :=
  caps <$> exec r (mkState None s ∅) Some.

(** [pattern.finditer(s)]: the matches from left to right, each search
    starting where the previous match ended ([skip] characters ahead). *)
Fixpoint scan (r : regex) (skip : nat) (before : option ascii) (s : string)
    {struct s} : list match_object :=
  match skip with
  | S skip' =>
      match s with
      | String c t => scan r skip' (Some c) t
      | EmptyString => []
      end
  | O =>
      match exec r (mkState before s ∅) Some with
      | Some st' =>
          caps st' ::
          match s with
          | String c t =>
              scan r (pred (String.length s - String.length (rest st'))) (Some c) t
          | EmptyString => []
          end
      | None =>
          match s with
          | String c t => scan r 0 (Some c) t
          | EmptyString => []
          end
      end
  end.

Definition finditer (r : regex) (s : string) : list match_object :=
  scan r 0 None s.

(** What a pattern can match, without the order of the attempts: from
    [st], consuming [w], to [st']. *)
Inductive Matches : regex -> mstate -> string -> mstate -> Prop :=
| M_Eps st : Matches Eps st "" st
| M_Chr p st c t :
    rest st = String c t -> p c = true ->
    Matches (Chr p) st (String c "") (mkState (Some c) t (caps st))
| M_Seq r1 r2 st w1 st1 w2 st2 :
    Matches r1 st w1 st1 -> Matches r2 st1 w2 st2 ->
    Matches (Seq r1 r2) st (w1 +:+ w2) st2
| M_AltL r1 r2 st w st' : Matches r1 st w st' -> Matches (Alt r1 r2) st w st'
| M_AltR r1 r2 st w st' : Matches r2 st w st' -> Matches (Alt r1 r2) st w st'
| M_Star0 r st : Matches (Star r) st "" st
| M_StarS r st w1 st1 w2 st2 :
    Matches r st w1 st1 -> Matches (Star r) st1 w2 st2 ->
    Matches (Star r) st (w1 +:+ w2) st2
| M_Group name r st w st1 :
    Matches r st w st1 ->
    Matches (Group name r) st w
            (mkState (prev st1) (rest st1) (<[name := w]> (caps st1)))
| M_LineStart st : at_line_start st = true -> Matches LineStart st "" st
| M_LineEnd st : at_line_end st = true -> Matches LineEnd st "" st.

End Re.

(** ** The patterns of the backend *)

Module Patterns.
Import Re.

(** [FILE_LINE_COL_REGEX], piece by piece as in the source: [\s*], [^],
    group [file] holding [\S*], a colon, group [line] holding [\d+], a
    colon, group [col] holding [\d+], a colon, and then optionally a group
    holding [\s*], group [flag] with the alternatives [\*] and
    [[Ww]arning:], and [\s+].  Groups without a name carry their number. *)
Definition FLAG : regex :=
  Group "flag" (Alt (lit "*") (Seq (Chr (one_of "Ww")) (lit "arning:"))).

Definition FILE_LINE_COL_REGEX : regex :=
  seq_of [Star (Chr space); LineStart;
          Group "file" (Star (Chr non_space)); lit ":";
          Group "line" (plus (Chr digit)); lit ":";
          Group "col" (plus (Chr digit)); lit ":";
          opt (Group "4" (seq_of [Star (Chr space); FLAG; plus (Chr space)]))].

(** [GHC_CHECK_REGEX], compiled with [re.MULTILINE]: the prefix, then
    group [details] holding [.*$] and any number of times the group of a
    line feed, [^], the group without capture of [\*?\s+], and [.*$]. *)
Definition GHC_CHECK_REGEX : regex :=
  Seq FILE_LINE_COL_REGEX
      (Group "details"
         (seq_of [Star (Chr dot); LineEnd;
                  Star (Group "7"
                          (seq_of [Chr (Ascii.eqb LF); LineStart;
                                   Seq (opt (lit "*")) (plus (Chr space));
                                   Star (Chr dot); LineEnd]))])).

(** [GHC_LINT_REGEX], compiled with [re.MULTILINE]: the prefix, then
    group [msg] holding [.*$], then group [details] holding one or more
    times the group of a line feed and the group of [.*$]. *)
Definition GHC_LINT_REGEX : regex :=
  Seq FILE_LINE_COL_REGEX
      (Seq (Group "msg" (Seq (Star (Chr dot)) LineEnd))
           (Group "details"
              (plus (Group "8"
                       (Seq (Chr (Ascii.eqb LF))
                            (Group "9" (Seq (Star (Chr dot)) LineEnd))))))).

(** The pattern of [module]: [\w+], then one or more times the group of
    a dot and [\w+]. *)
Definition DOTTED_NAME : regex :=
  Seq (plus (Chr word))
      (plus (Group "1" (Seq (lit ".") (plus (Chr word))))).

End Patterns.

(** ** [os.path] on POSIX: [isabs], [join] and [normpath] *)

Module PosixPath.

Definition slash : ascii := "/"%char.

(** [os.path.isabs(s)]. *)
Definition isabs (s : string) : bool := startswith s "/".

Definition endswith_slash (s : string) : bool :=
  match String.rev s with
  | String c _ => Ascii.eqb c slash
  | EmptyString => false
  end.

(** [os.path.join(a, b)]. *)
Definition join (a b : string) : string :=
  if startswith b "/" then b
  else if str_eqb a "" || endswith_slash a then a +:+ b
  else a +:+ "/" +:+ b.

(** [s.split('/')]. *)
Fixpoint split_slash (s : string) : list string :=
  match s with
  | EmptyString => [EmptyString]
  | String c t =>
      if Ascii.eqb c slash then EmptyString :: split_slash t
      else match split_slash t with
           | x :: xs => String c x :: xs
           | [] => [String c EmptyString]
           end
  end.

(** One round of the loop of [normpath]; [new_comps] is kept with its
    last component first. *)
Definition normpath_step (initial_slashes : nat) (new_comps : list string)
    (comp : string) : list string :=
  if str_eqb comp "" || str_eqb comp "." then new_comps
  else if negb (str_eqb comp "..")
          || (Nat.eqb initial_slashes 0 && bool_decide (new_comps = []))
          || match new_comps with
             | last :: _ => str_eqb last ".."
             | [] => false
             end
  then comp :: new_comps
  else match new_comps with
       | _ :: others => others
       | [] => []
       end.

Fixpoint slashes (n : nat) : string :=
  match n with
  | O => EmptyString
  | S n' => String slash (slashes n')
  end.

(** [os.path.normpath(path)]. *)
Definition normpath (path : string) : string :=
  if str_eqb path "" then "."
  else
    let initial_slashes :=
      if startswith path "/"
      then if startswith path "//" && negb (startswith path "///") then 2 else 1
      else 0 in
    let new_comps :=
      fold_left (normpath_step initial_slashes) (split_slash path) [] in
    let path := slashes initial_slashes +:+ Py.join "/" (rev new_comps) in
    if str_eqb path "" then "." else path.

End PosixPath.

(** ** Translation of a match into a diagnostic record *)

Module Translate.
Import Re.

Record position : Type := mkPosition { column : Z; line : Z }.

Record region : Type := mkRegion { from : position; to : position }.

Record note : Type := mkNote {
  message : option string;
  suggestions : option (list string)
}.

Record source : Type := mkSource {
  file : string;
  project : option string
}.

(** The dictionary both translations build. *)
Record diagnostic : Type := mkDiagnostic {
  level : string;
  diag_note : note;
  diag_region : region;
  diag_source : source
}.

Definition digit_value (c : ascii) : Z := (Z.of_N (N_of_ascii c) - 48)%Z.

(** [int(text)] on what a group holds.  Only decimal digits are read;
    the signs, blanks and underscores [int] also accepts are never part of
    a [\d+] group, and are [ValueError] here. *)
Definition int (text : option string) : result Z :=
  match text with
  | None => Raise TypeError
  | Some s =>
      if str_eqb s "" then Raise ValueError
      else if forallb digit (list_ascii_of_string s)
      then Ret (fold_left (fun (acc : Z) c => (10 * acc + digit_value c)%Z)
                          (list_ascii_of_string s) 0%Z)
      else Raise ValueError
  end.

(** The file name both translations report: a name that is not absolute
    is joined to the project directory and normalised. *)
Definition reconcile (project_dir : option string) (filename : option string)
  : result string :=
  match filename with
  | None => Raise TypeError
  | Some f =>
      if negb (PosixPath.isabs f) then
        match project_dir with
        | None => Raise TypeError
        | Some dir => Ret (PosixPath.normpath (PosixPath.join dir f))
        end
      else Ret f
  end.

Definition bind_result {A B : Type} (r : result A) (k : A -> result B) : result B :=
  match r with
  | Ret a => k a
  | Raise e => Raise e
  end.

(** [GHCModBackend.translate_check]. *)
Definition translate_check (project_dir : option string) (errmsg : match_object)
  : result diagnostic :=
  bind_result (int (group errmsg "line")) (fun line =>
  bind_result (int (group errmsg "col")) (fun column =>
  bind_result (reconcile project_dir (group errmsg "file")) (fun filename =>
  let flag := group errmsg "flag" in
  let level_type :=
    match flag with
    | None => "error"
    | Some f => if negb (startswith (lower f) "warning") then "error" else "warning"
    end in
  Ret (mkDiagnostic level_type
         (mkNote (group errmsg "details") None)
         (mkRegion (mkPosition 1 line) (mkPosition column line))
         (mkSource filename None))))).

(** ['{0}'.format(v)] on what a group holds. *)
Definition format_group (v : option string) : string :=
  match v with
  | Some s => s
  | None => "None"
  end.

(** [GHCModBackend.translate_lint]. *)
Definition translate_lint (project_dir : option string) (errmsg : match_object)
  : result diagnostic :=
  bind_result (int (group errmsg "line")) (fun line =>
  bind_result (int (group errmsg "col")) (fun column =>
  bind_result (reconcile project_dir (group errmsg "file")) (fun filename =>
  Ret (mkDiagnostic "hint"
         (mkNote (Some (format_group (group errmsg "msg") +:+
                        format_group (group errmsg "details"))) None)
         (mkRegion (mkPosition 1 line) (mkPosition column line))
         (mkSource filename None))))).

End Translate.

(** ** The two grammars and what their matches hold *)

Module Grammar.
Import Re Patterns Translate.

(** The two grammars with their translations. *)
Inductive grammar : Type := CheckGrammar | LintGrammar.

Definition pattern_of (g : grammar) : regex :=
  match g with
  | CheckGrammar => GHC_CHECK_REGEX
  | LintGrammar => GHC_LINT_REGEX
  end.

Definition translate_of (g : grammar)
  : option string -> match_object -> result diagnostic :=
  match g with
  | CheckGrammar => translate_check
  | LintGrammar => translate_lint
  end.

(** The values the group [flag] can hold in a match. *)
Definition flag_token (o : option string) : Prop :=
  o = None \/ o = Some "*" \/ o = Some "Warning:" \/ o = Some "warning:".

Definition is_number (s : string) : Prop :=
  s <> "" /\ forallb digit (list_ascii_of_string s) = true.

(** What the common prefix of the grammars leaves in a match. *)
Definition prefix_captured (m : match_object) : Prop :=
  (exists f, group m "file" = Some f)
  /\ (exists l, group m "line" = Some l /\ is_number l)
  /\ (exists c, group m "col" = Some c /\ is_number c)
  /\ flag_token (group m "flag").

End Grammar.

(** ** The backend: project registry and operations, [GHCModBackend] *)

Module Backend.
Import Client Re Patterns Translate.

(** What starting the executable comes to: [Which.which] finds nothing,
    [subprocess.Popen] returns a process, or it raises [OSError] with an
    error number. *)
Inductive launch_outcome : Type :=
| NotFound
| Spawned (p : Popen)
| SpawnFails (errno : Z).

(** The host the backend runs on: the outcome of starting a command in a
    directory, the options [get_ghc_opts_args] computes for a file of a
    project from the settings and the file system, and [re.search] with a
    pattern given at run time. *)
Record host : Type := mkHost {
  launch : list string -> string -> launch_outcome;
  ghc_opts_args : string -> string -> result (list string);
  re_search : string -> string -> result bool
}.

Definition EPIPE : Z := 32.

(** [ProcHelper.__init__].  In the [except OSError] clause
    [self.process] is still [None], so the branch for [EPIPE] fails on
    [self.process.communicate()]; the other branch raises the error
    again. *)
Definition ProcHelper_init (h : host) (command : list string) (cwd : string)
  : result ProcHelper :=
  match launch h command cwd with
  | Spawned p => Ret (mkProcHelper (Some p) None)
  | NotFound =>
      Ret (mkProcHelper None
             (Some ("SublimeHaskell.ProcHelper: " +:+ hd "" command
                    +:+ " was not found on PATH!")))
  | SpawnFails errno =>
      if (errno =? EPIPE)%Z then Raise AttributeError else Raise OSError
  end.

(** The command line [GHCModClient.__init__] builds. *)
Definition ghcmod_command (opt_args : list string) : list string :=
  ["ghc-mod"]
  ++ ["-b"; "\n"; "--line-prefix";
      GHCMOD_OUTPUT_MARKER +:+ "," +:+ GHCMOD_ERROR_MARKER]
  ++ opt_args ++ ["legacy-interactive"].

(** [GHCModClient.__init__]. *)
Definition GHCModClient_init (h : host) (project project_dir : string)
    (opt_args : list string) : result GHCModClient :=
  let cmd := ghcmod_command opt_args in
  match ProcHelper_init h cmd project_dir with
  | Raise e => Raise e
  | Ret ph =>
      match process ph with
      | Some _ =>
          Ret (mkClient (Some ph) (Some MkLock)
                        (Some (mkDrain ("ghc-mod " +:+ project) true)) [])
      | None => Ret (mkClient (Some ph) None None [])
      end
  end.

(** A call of one of the three session operations of the backend, and
    whether it returned ([true]) or raised. *)
Inductive call : Type :=
| Mapped (file : string) (returned : bool)
| Commanded (file cmd : string) (returned : bool)
| Unmapped (file : string) (returned : bool).

(** The attributes of a [GHCModBackend]; [trace] records, oldest first,
    the calls of its session operations and is no attribute of the
    source. *)
Record GHCModBackend : Type := mkBackend {
  file_to_project : gmap string (string * string);
  project_backends : gmap string GHCModClient;
  trace : list call
}.

Definition set_backends (B : GHCModBackend) (reg : gmap string GHCModClient)
  : GHCModBackend :=
  mkBackend (file_to_project B) reg (trace B).

Definition record_call (mk : bool -> call) {A : Type} (m : M GHCModBackend A)
  : M GHCModBackend A :=
  fun B =>
    match m B with
    | (r, B') =>
        (r, mkBackend (file_to_project B') (project_backends B')
                      (trace B' ++ [mk (negb (raised r))]))
    end.

(** Modelled from the spec: [HaskellBackend.add_project_file] of the base
    class, which is not part of the sources, records the project and the
    project directory of the file (the association "supplied by an
    external project-tracking collaborator"), as [get_project_dir] and
    [get_backend] read it back. *)
Definition super_add_project_file (filename project project_dir : string)
  : M GHCModBackend unit :=
  fun B =>
    (Ret tt, mkBackend (<[filename := (project, project_dir)]> (file_to_project B))
                       (project_backends B) (trace B)).

Definition lift {S A : Type} (r : result A) : M S A := fun s => (r, s).

(** [GHCModBackend.add_project_file]. *)
Definition add_project_file (h : host) (filename project project_dir : string)
  : M GHCModBackend unit :=
  super_add_project_file filename project project_dir ;;
  fun B =>
    match project_backends B !! project with
    | Some _ => (Ret tt, B)
    | None =>
        match ghc_opts_args h filename project_dir with
        | Raise e => (Raise e, B)
        | Ret opt_args =>
            match GHCModClient_init h project project_dir opt_args with
            | Raise e => (Raise e, B)
            | Ret client =>
                (Ret tt, set_backends B (<[project := client]> (project_backends B)))
            end
        end
    end.

(** [GHCModBackend.get_project_dir]. *)
Definition get_project_dir (B : GHCModBackend) (filename : string) : option string :=
  match file_to_project B !! filename with
  | Some backend_info => Some (snd backend_info)
  | None => None
  end.

(** [GHCModBackend.get_backend]: the session of the file's project, here
    by the key it is stored under. *)
Definition get_backend (B : GHCModBackend) (filename : string) : option string :=
  match file_to_project B !! filename with
  | Some backend_info =>
      match project_backends B !! fst backend_info with
      | Some _ => Some (fst backend_info)
      | None => None
      end
  | None => None
  end.

(** An operation on the session stored under [project]; the session is one
    object, so what the operation does to it is seen in the registry. *)
Definition on_session {A : Type} (project : string) (op : M GHCModClient A)
  : M GHCModBackend A :=
  fun B =>
    match project_backends B !! project with
    | Some c =>
        match op c with
        | (r, c') => (r, set_backends B (<[project := c']> (project_backends B)))
        end
    | None => (Raise AttributeError, B)
    end.

Definition on_backend_of (filename : string) (op : M GHCModClient reply)
  : M GHCModBackend reply :=
  fun B =>
    match get_backend B filename with
    | Some project => on_session project op B
    | None => (Ret ([], []), B)
    end.

(** [GHCModBackend.command_backend]. *)
Definition command_backend (filename cmd : string) : M GHCModBackend reply :=
  record_call (Commanded filename cmd)
    (on_backend_of filename (Client.command_backend cmd)).

(** [GHCModBackend.backend_map_file]. *)
Definition backend_map_file (filename contents : string) : M GHCModBackend reply :=
  record_call (Mapped filename)
    (on_backend_of filename (Client.map_file filename contents)).

(** [GHCModBackend.backend_unmap_file]. *)
Definition backend_unmap_file (filename : string) : M GHCModBackend reply :=
  record_call (Unmapped filename)
    (on_backend_of filename (Client.unmap_file filename)).

(** A list comprehension whose elements may raise. *)
Fixpoint collect {A : Type} (l : list (result A)) : result (list A) :=
  match l with
  | [] => Ret []
  | Raise e :: _ => Raise e
  | Ret a :: rest =>
      match collect rest with
      | Ret others => Ret (a :: others)
      | Raise e => Raise e
      end
  end.

(** The body of the loop of [translate_regex_output] for one file. *)
Definition translate_file (cmd : string) (contents : option (gmap string string))
    (regex : Re.regex) (xlat_func : option string -> match_object -> result diagnostic)
    (retval : list diagnostic) (file : string)
  : M GHCModBackend (list diagnostic) :=
  fun B =>
    let project_dir := get_project_dir B file in
    (do mapped_file <-
          match contents with
          | None => raise TypeError
          | Some texts =>
              match texts !! file with
              | Some text => backend_map_file file text ;; ret true
              | None => ret false
              end
          end;
     try_finally
       (do resp <- command_backend file (cmd +:+ " " +:+ file);
        do records <-
          lift (collect (map (xlat_func project_dir)
                             (finditer regex (Py.join newline (fst resp)))));
        ret (retval ++ records))
       (if mapped_file : bool then backend_unmap_file file ;; ret tt else ret tt)) B.

Fixpoint translate_files (cmd : string) (contents : option (gmap string string))
    (regex : Re.regex) (xlat_func : option string -> match_object -> result diagnostic)
    (retval : list diagnostic) (files : list string)
  : M GHCModBackend (list diagnostic) :=
  match files with
  | [] => ret retval
  | file :: rest =>
      do retval' <- translate_file cmd contents regex xlat_func retval file;
      translate_files cmd contents regex xlat_func retval' rest
  end.

(** [GHCModBackend.translate_regex_output]. *)
Definition translate_regex_output (cmd : string) (files : option (list string))
    (contents : option (gmap string string)) (regex : Re.regex)
    (xlat_func : option string -> match_object -> result diagnostic)
  : M GHCModBackend (list diagnostic) :=
  match files with
  | None => raise TypeError
  | Some fs => translate_files cmd contents regex xlat_func [] fs
  end.

(** [GHCModBackend.lint] and [GHCModBackend.check]; their result is what
    they hand to [dispatch_callbacks]. *)
Definition lint (files : option (list string)) (contents : option (gmap string string))
    (hlint : option (list string)) : M GHCModBackend (list diagnostic) :=
  let lint_cmd := Py.join " " (["lint"; "--hlintOpt"; "-u"] ++ default [] hlint) in
  translate_regex_output lint_cmd files contents GHC_LINT_REGEX translate_lint.

Definition check (files : option (list string)) (contents : option (gmap string string))
  : M GHCModBackend (list diagnostic) :=
  let check_cmd := "check " in
  translate_regex_output check_cmd files contents GHC_CHECK_REGEX translate_check.

(** The value of [backend.command_backend(cmd) if backend is not None else []]. *)
Inductive reply_or_list : Type :=
| ReplyTuple (r : reply)
| EmptyList.

Definition command_or_empty (project_name cmd : string)
  : M GHCModBackend reply_or_list :=
  fun B =>
    match project_backends B !! project_name with
    | Some _ =>
        (do r <- on_session project_name (Client.command_backend cmd);
         ret (ReplyTuple r)) B
    | None => (Ret EmptyList, B)
    end.

(** [a, b = value]: a list without elements cannot be unpacked. *)
Definition unpack_pair (value : reply_or_list) : result reply :=
  match value with
  | ReplyTuple r => Ret r
  | EmptyList => Raise ValueError
  end.

(** [GHCModBackend.langs]. *)
Definition langs (project_name : string) : M GHCModBackend (list string) :=
  do value <- command_or_empty project_name "lang";
  do r <- lift (unpack_pair value);
  ret (fst r).

(** [GHCModBackend.flags]. *)
Definition flags (project_name : string) : M GHCModBackend (list string) :=
  do value <- command_or_empty project_name "flag";
  do r <- lift (unpack_pair value);
  ret (fst r).

(** Modelled from the spec: the module [symbols] is not part of the
    sources.  A module symbol is a name with its declarations and where it
    is installed; a declaration symbol is a name with "a coarse kind
    (class/data/newtype/function) and declaration text". *)
Record PackageDb : Type := mkPackageDb { global_db : bool }.

Inductive location : Type :=
| InstalledLocation (package : string) (db : PackageDb)
| InDb (db : PackageDb).

Inductive declaration : Type :=
| Class (name : string)
| Data (name : string)
| Newtype (name : string)
| Function (name declinfo : string).

Record ModuleSymbol : Type := mkModule {
  module_name : string;
  module_exports : list string;
  module_imports : list string;
  module_declarations : gmap string declaration;
  module_location : location
}.

(** [s[i]] and [l[i]]. *)
Definition char_at (s : string) (i : nat) : result string :=
  match String.get i s with
  | Some c => Ret (String c EmptyString)
  | None => Raise IndexError
  end.

Definition item {A : Type} (l : list A) (i : nat) : result A :=
  match nth_error l i with
  | Some a => Ret a
  | None => Raise IndexError
  end.

(** [s.split()]: the words between runs of white space. *)
Fixpoint words_from (cur : string) (s : string) : list string :=
  match s with
  | EmptyString => if str_eqb cur "" then [] else [cur]
  | String c t =>
      if is_space c
      then if str_eqb cur "" then words_from "" t else cur :: words_from "" t
      else words_from (cur +:+ String c EmptyString) t
  end.

Definition split_words (s : string) : list string := words_from "" s.

(** [sub in s]. *)
Fixpoint contains (sub s : string) : bool :=
  String.prefix sub s
  || match s with
     | EmptyString => false
     | String _ t => contains sub t
     end.

(** [s.split(sep)] for a separator that is not empty: [skip] characters
    of a separator just found are still to be passed over, [cur] is the
    piece being read. *)
Fixpoint split_from (sep : string) (skip : nat) (cur : string) (s : string)
  : list string :=
  match skip with
  | S skip' =>
      match s with
      | String _ t => split_from sep skip' cur t
      | EmptyString => [cur]
      end
  | O =>
      match s with
      | EmptyString => [cur]
      | String c t =>
          if String.prefix sep s
          then cur :: split_from sep (pred (String.length sep)) "" t
          else split_from sep 0 (cur +:+ String c EmptyString) t
      end
  end.

Definition split_on (sep s : string) : list string := split_from sep 0 "" s.

Definition endswith (s suffix : string) : bool :=
  String.prefix (String.rev suffix) (String.rev s).

(** [GHCModBackend.lookup_match]. *)
Definition lookup_match (h : host) (elt lookup search_type : string) : result bool :=
  if str_eqb search_type "exact" && str_eqb elt lookup then Ret true
  else if str_eqb search_type "prefix" && startswith elt lookup then Ret true
  else if str_eqb search_type "suffix" && endswith elt lookup then Ret true
  else if str_eqb search_type "infix" && contains lookup elt then Ret true
  else if str_eqb search_type "regex" then re_search h lookup elt
  else Ret false.

(** The comprehension of [scope_modules]: the modules whose second
    character matches the lookup, each split into package and name. *)
Fixpoint filtered_mods (h : host) (lookup search_type : string)
    (modules : list string) : result (list ModuleSymbol) :=
  match modules with
  | [] => Ret []
  | m :: rest =>
      bind_result (char_at m 1) (fun elt =>
      bind_result (lookup_match h elt lookup search_type) (fun keep =>
      if keep : bool then
        let mod_ := split_words m in
        bind_result (item mod_ 1) (fun name =>
        bind_result (item mod_ 0) (fun package =>
        bind_result (filtered_mods h lookup search_type rest) (fun others =>
        Ret (mkModule name [] [] ∅
               (InstalledLocation package (mkPackageDb true)) :: others))))
      else filtered_mods h lookup search_type rest))
  end.

(** [GHCModBackend.scope_modules]. *)
Definition scope_modules (h : host) (project_name _filename lookup search_type : string)
  : M GHCModBackend (list ModuleSymbol) :=
  do value <- command_or_empty project_name "list -d";
  do r <- lift (unpack_pair value);
  lift (filtered_mods h lookup search_type (fst r)).

(** The loop of [module] over the lines of a [browse] reply. *)
Fixpoint module_decls (modinfo : list string) (moddecls : gmap string declaration)
  : result (gmap string declaration) :=
  match modinfo with
  | [] => Ret moddecls
  | mdecl :: rest =>
      match split_on " :: " mdecl with
      | [name; declinfo] =>
          let decl :=
            if startswith declinfo "class" then Class name
            else if startswith declinfo "data" then Data name
            else if startswith declinfo "newtype" then Newtype name
            else Function name declinfo in
          module_decls rest (<[name := decl]> moddecls)
      | _ => Raise ValueError
      end
  end.

(** [GHCModBackend.module], with the project name, the lookup and the
    search type; the module symbol it builds counts as true. *)
Definition module (project_name lookup search_type : string)
  : M GHCModBackend (list ModuleSymbol) :=
  if str_eqb search_type "exact" && bool_decide (is_Some (re_match DOTTED_NAME lookup))
  then
    do value <- command_or_empty project_name ("browse -d -o " +:+ lookup);
    do r <- lift (unpack_pair value);
    let modinfo := fst r in
    let err := snd r in
    if bool_decide (err = []) || negb (contains "EXCEPTION" (Py.join " " err))
    then
      do moddecls <- lift (module_decls modinfo ∅);
      ret [mkModule lookup [] [] moddecls (InDb (mkPackageDb true))]
    else ret []
  else ret [].

(** The calls of a run of [translate_regex_output]: a command alone for
    a file without contents, a mapping, the command and the unmapping for
    a file with contents, or a mapping that raised, after which nothing
    follows. *)
Inductive well_bracketed : list call -> Prop :=
| wb_nil : well_bracketed []
| wb_plain file cmd ok rest :
    well_bracketed rest -> well_bracketed (Commanded file cmd ok :: rest)
| wb_mapped file cmd ok1 ok2 rest :
    well_bracketed rest ->
    well_bracketed (Mapped file true :: Commanded file cmd ok1
                      :: Unmapped file ok2 :: rest)
| wb_map_raised file : well_bracketed [Mapped file false].

(** The calls one file adds: none or a mapping that raised, and then the
    file raised; or else the command, between the mapping and the
    unmapping when the file has contents. *)
Definition file_calls (file : string) (raises : bool) (new : list call) : Prop :=
  (raises = true /\ (new = [] \/ new = [Mapped file false]))
  \/ (exists cmd ok, new = [Commanded file cmd ok])
  \/ (exists cmd ok1 ok2,
        new = [Mapped file true; Commanded file cmd ok1; Unmapped file ok2]).

(** A session whose input pipe fails while the contents are sent: the
    mapping returns after shutting the session down, the command raises,
    and the unmapping is attempted all the same. *)
Definition broken_pipe_backend : GHCModBackend :=
  mkBackend {[ "Foo.hs" := ("proj", "/proj") ]}
            {[ "proj" := mkClient (Some (mkProcHelper (Some (mkPopen [] [true] [])) None))
                        (Some MkLock) None [] ]}
            [].

End Backend.

(** ** Commands as they go over the wire *)

Module Framing.
Import Client Wire.

(** The text an operation puts on the input of the subprocess. *)
Definition wire_text (op : operation) : string :=
  match op with
  | Command cmd => cmd +:+ newline
  | MapFile file contents =>
      "map-file " +:+ file +:+ newline +:+ contents +:+ newline
      +:+ String EOT newline
  | UnmapFile file => "unmap-file " +:+ file +:+ newline
  end.

(** All the text the input pipe has accepted. *)
Definition sent_text (p : Popen) : string := String.concat "" (stdin_sent p).

(** A line that is neither the end of the stream nor on one of the two
    channels. *)
Definition off_channel (line : string) : Prop :=
  line <> "" /\ take 3 line <> GHCMOD_OUTPUT_MARKER
  /\ take 3 line <> GHCMOD_ERROR_MARKER.

(** What [read_response] writes to [sys.stdout] for such a line. *)
Definition complaint (line : string) : string :=
  (if str_eqb (take 3 line) "NG " then "Error response: "
   else "Unexpected reply from ghc-mod client: ") +:+ drop 3 (rstrip line).

(** The pieces an operation writes, one [write] each. *)
Definition chunks (op : operation) : list string :=
  match op with
  | Command cmd => [cmd; newline]
  | MapFile file contents =>
      ["map-file " +:+ file; newline; contents; newline +:+ String EOT newline]
  | UnmapFile file => ["unmap-file " +:+ file; newline]
  end.

(** A client with a [ProcHelper] that holds no process. *)
Definition processless (c : GHCModClient) : Prop :=
  exists perr, ghcmod c = Some (mkProcHelper None perr).

(** How the first reply ends: by its terminator, or early at a line off
    the channels. *)
Definition ends_reply (e : read_event) : Prop :=
  e = terminator \/ exists line, e = Line line /\ off_channel line.

End Framing.


(** ** Ending the backend *)

Module Lifecycle.
Import Client Backend.

(** The loop of [stop_backend]: the sessions are shut down one after the
    other, in the order the dictionary lists its keys. *)
Fixpoint shutdown_each (projects : list string) : M GHCModBackend unit :=
  match projects with
  | [] => ret tt
  | project :: rest => on_session project shutdown ;; shutdown_each rest
  end.

(** [GHCModBackend.stop_backend]; [projects] are the keys of
    [project_backends] as the loop meets them. *)
Definition stop_backend (projects : list string) : M GHCModBackend unit :=
  shutdown_each projects ;;
  fun B => (Ret tt, set_backends B ∅).

(** The keys of the registry, in some order. *)
Definition lists_projects (B : GHCModBackend) (projects : list string) : Prop :=
  forall project, In project projects <-> is_Some (project_backends B !! project).

End Lifecycle.

(** ** Shapes of texts the properties speak of *)

Module Shapes.
Import Re Backend.

(** The character occurs in the text. *)
Definition has_char (c : ascii) (s : string) : bool :=
  existsb (Ascii.eqb c) (list_ascii_of_string s).

Definition has_line_feed (s : string) : bool := has_char LF s.

(** A text of one or more characters, none of them white space. *)
Definition is_token (s : string) : Prop :=
  s <> "" /\ forallb non_space (list_ascii_of_string s) = true.

(** The declaration [module] makes of a name and its description. *)
Definition declaration_of (name declinfo : string) : declaration :=
  if startswith declinfo "class" then Class name
  else if startswith declinfo "data" then Data name
  else if startswith declinfo "newtype" then Newtype name
  else Function name declinfo.

End Shapes.

(** ** The process helper for tools that run to their end: [proc_helper.py] *)

Module Launcher.
Import PosixPath.

(** An exception of the helper: one of the built-in ones, an [OSError]
    of [subprocess.Popen] with its error number, or the plain [Exception]
    [invoke_tool] raises for a tool that exits with an error, with the tool
    name, the exit code and the error text of its message. *)
Inductive tool_error : Type :=
| Builtin (e : exn)
| OSErrorWith (errno : Z)
| ToolFailure (tool_name : string) (exit_code : Z) (stderr : string).

Inductive outcome (A : Type) : Type :=
| Done (a : A)
| Failed (e : tool_error).
Arguments Done {A} a.
Arguments Failed {A} e.

Definition and_then {A B : Type} (o : outcome A) (k : A -> outcome B) : outcome B :=
  match o with
  | Done a => k a
  | Failed e => Failed e
  end.

(** What [communicate] and [wait] give for a process that was started,
    already decoded. *)
Record finished : Type := mkFinished {
  exit_code : Z;
  stdout_text : string;
  stderr_text : string
}.

(** What starting a command comes to: [Which.which] finds nothing, the
    process starts (and later ends as given), or [subprocess.Popen] raises
    [OSError] with an error number. *)
Inductive start_outcome : Type :=
| Missing
| Started (run : finished)
| StartFails (errno : Z).

(** [info['description']] of the reply of [hsinspect], as far as
    [get_source_dir] reads it: the source directories of the library, if
    there is one, of the executables and of the tests. *)
Record description : Type := mkDescription {
  library : option (list string);
  executables : list (list string);
  tests : list (list string)
}.

(** The reply of [hsinspect] after [json.loads]: whether it has the key
    [error], and its [description] if it has one. *)
Record package_info : Type := mkInfo {
  has_error : bool;
  info_description : option description
}.

(** The platform and the modules that are not part of the sources:
    [os.environ], [Utils.is_windows], [os.path.isdir],
    [Utils.normalize_path] (also as [map] would call it with an element of a
    second list), [CabalConfigRdr.cabal_config], [os.pathsep],
    [os.path.expanduser] of the home directory, [os.getcwd], starting a
    command in an optional directory, the two look-ups of [Common] for the
    cabal directory of a file and the cabal file of a directory,
    [json.loads], [Utils.tool_enabled] and [os.listdir]. *)
Record platform : Type := mkPlatform {
  os_environ : gmap string string;
  is_windows : bool;
  isdir : string -> bool;
  normalize_path : string -> string;
  normalize_path_with : string -> string -> string;
  cabal_config : list string;
  pathsep : string;
  home : string;
  getcwd : string;
  start : list string -> option string -> start_outcome;
  cabal_project_dir : string -> option string;
  cabal_in_dir : string -> string;
  json_loads : string -> outcome package_info;
  tool_enabled : string -> string;
  listdir : string -> result (list string)
}.

(** [Settings.PLUGIN], as far as the helper and the options read and write
    it; [flags] holds the attributes [Utils.tool_enabled] names. *)
Record plugin_settings : Type := mkSettings {
  add_standard_dirs : bool;
  add_to_path : list string;
  ghc_opts : option (list string);
  flags : gmap string bool
}.

Definition ENOENT : Z := 2.
Definition EPIPE : Z := 32.

(** A [ProcHelper] for such a tool. *)
Record ToolHelper : Type := mkToolHelper {
  tool_process : option finished;
  tool_process_err : option string
}.

(** [ProcHelper.__init__] with an optional working directory; see
    [Backend.ProcHelper_init] for the clause of [EPIPE]. *)
Definition ProcHelper_open (pf : platform) (command : list string)
    (cwd : option string) : outcome ToolHelper :=
  match start pf command cwd with
  | Started run => Done (mkToolHelper (Some run) None)
  | Missing =>
      match command with
      | [] => Failed (Builtin IndexError)
      | tool :: _ =>
          Done (mkToolHelper None
                  (Some ("SublimeHaskell.ProcHelper: " +:+ tool
                         +:+ " was not found on PATH!")))
      end
  | StartFails errno =>
      if (errno =? EPIPE)%Z then Failed (Builtin AttributeError)
      else Failed (OSErrorWith errno)
  end.

(** [x or y] on texts. *)
Definition or_text (x : option string) (y : string) : string :=
  match x with
  | Some s => if str_eqb s "" then y else s
  | None => y
  end.

(** A text as a condition: [None] and the empty text count as false. *)
Definition truthy (x : option string) : option string :=
  match x with
  | Some s => if str_eqb s "" then None else Some s
  | None => None
  end.

(** [ProcHelper.wait]. *)
Definition wait (proc : ToolHelper) : Z * string * string :=
  match tool_process proc with
  | Some run => (exit_code run, stdout_text run, stderr_text run)
  | None => ((-1)%Z, "", or_text (tool_process_err proc)
                               "?? unknown error -- no process.")
  end.

(** [ProcHelper.run_process]. *)
Definition run_process (pf : platform) (command : list string) (cwd : option string)
  : outcome (Z * string * string) :=
  and_then (ProcHelper_open pf command cwd) (fun proc => Done (wait proc)).

(** [map(f, xs, ys)]: it ends with the shorter list. *)
Definition map2 {A B C : Type} (f : A -> B -> C) (xs : list A) (ys : list B) : list C :=
  zip_with f xs ys.

(** [ProcHelper.make_extended_env]. *)
Definition make_extended_env (pf : platform) (st : plugin_settings)
  : gmap string string :=
  let ext_env := os_environ pf in
  let env_path := or_text (os_environ pf !! "PATH") "" in
  let std_places :=
    if add_standard_dirs st then
      let std_places :=
        [if negb (is_windows pf) then "$HOME/.local/bin" else "%APPDATA%/local/bin"]
        ++ cabal_config pf in
      List.filter (isdir pf) (map (normalize_path pf) std_places)
    else [] in
  let add_to_path :=
    List.filter (isdir pf) (map2 (normalize_path_with pf) (add_to_path st) []) in
  <["PATH" := Py.join (pathsep pf) (add_to_path ++ std_places ++ [env_path])]> ext_env.

(** [ProcHelper.get_extended_env] on the class attribute [augmented_env]:
    the environment and the attribute afterwards. *)
Definition get_extended_env (pf : platform) (st : plugin_settings)
    (augmented_env : option (gmap string string))
  : gmap string string * option (gmap string string) :=
  match augmented_env with
  | Some env => (env, Some env)
  | None => (make_extended_env pf st, Some (make_extended_env pf st))
  end.

(** [ProcHelper.update_environment]: the attribute afterwards. *)
Definition update_environment (pf : platform) (st : plugin_settings)
    (augmented_env : option (gmap string string))
  : option (gmap string string) :=
  Some (make_extended_env pf st).

(** [s.rstrip('/')]. *)
Fixpoint rstrip_slashes (s : string) : string :=
  match s with
  | EmptyString => EmptyString
  | String c t =>
      match rstrip_slashes t with
      | EmptyString => if Ascii.eqb c slash then EmptyString else String c EmptyString
      | t' => String c t'
      end
  end.

(** [p[:p.rfind('/') + 1]]. *)
Fixpoint through_last_slash (p : string) : string :=
  match p with
  | EmptyString => EmptyString
  | String c t =>
      match through_last_slash t with
      | EmptyString => if Ascii.eqb c slash then String c EmptyString else EmptyString
      | t' => String c t'
      end
  end.

(** [os.path.dirname(p)]. *)
Definition dirname (p : string) : string :=
  let head := through_last_slash p in
  if negb (str_eqb head "")
     && negb (forallb (Ascii.eqb slash) (list_ascii_of_string head))
  then rstrip_slashes head else head.

(** [os.path.abspath(p)]. *)
Definition abspath (pf : platform) (p : string) : string :=
  normpath (if isabs p then p else join (getcwd pf) p).

(** One step of [paths.sort(key=lambda p: -len(p))], which is stable: the
    path goes behind the paths that are at least as long. *)
Fixpoint insert_by_length (p : string) (sorted : list string) : list string :=
  match sorted with
  | [] => [p]
  | q :: rest =>
      if String.length p <=? String.length q
      then q :: insert_by_length p rest
      else p :: q :: rest
  end.

Definition sort_by_length (paths : list string) : list string :=
  fold_left (fun sorted p => insert_by_length p sorted) paths [].

(** The last loop of [get_source_dir]: the first of the sorted paths the
    file name starts with. *)
Definition pick_source_dir (paths : list string) (filename : string) : option string :=
  List.find (fun path => startswith filename path) (sort_by_length paths).

(** The directories [get_source_dir] collects from the reply. *)
Definition source_dirs (info : package_info) : list string :=
  ["."] ++
  match has_error info, info_description info with
  | false, Some descr =>
      match library descr with
      | Some dirs => dirs
      | None => []
      end
      ++ concat (executables descr) ++ concat (tests descr)
  | _, _ => []
  end.

(** [get_source_dir]. *)
Definition get_source_dir (pf : platform) (filename : option string) : outcome string :=
  match truthy filename with
  | None => Done (home pf)
  | Some filename =>
      match truthy (cabal_project_dir pf filename) with
      | None => Done (dirname filename)
      | Some cabal_dir =>
          let cabal_file := cabal_in_dir pf cabal_dir in
          and_then (run_process pf ["hsinspect"; cabal_file] None) (fun r =>
          let exit_code := fst (fst r) in
          let out := snd (fst r) in
          if (exit_code =? 0)%Z then
            and_then (json_loads pf out) (fun info =>
            let dirs := source_dirs info in
            let paths := map (fun d => abspath pf (join cabal_dir d)) dirs in
            match pick_source_dir paths filename with
            | Some path => Done path
            | None => Done (dirname filename)
            end)
          else Done (dirname filename))
      end
  end.

(** [for line in io.StringIO(text)]: the lines with their line ends. *)
Fixpoint lines_from (cur : string) (text : string) : list string :=
  match text with
  | EmptyString => if str_eqb cur "" then [] else [cur]
  | String c t =>
      if Ascii.eqb c Client.LF
      then (cur +:+ String c EmptyString) :: lines_from "" t
      else lines_from (cur +:+ String c EmptyString) t
  end.

Definition lines_of (text : string) : list string := lines_from "" text.

(** What [invoke_tool] works on: the settings, the errors shown with
    [Common.output_error_async], and the values handed to [on_line],
    oldest first. *)
Record tool_world (A : Type) : Type := mkWorld {
  settings : plugin_settings;
  shown : list string;
  delivered : list A
}.
Arguments mkWorld {A} settings shown delivered.
Arguments settings {A} t.
Arguments shown {A} t.
Arguments delivered {A} t.

Definition set_flag (st : plugin_settings) (name : string) (value : bool)
  : plugin_settings :=
  mkSettings (add_standard_dirs st) (add_to_path st) (ghc_opts st)
             (<[name := value]> (flags st)).

(** [invoke_tool]; [mk_result] is [on_result], or the identity without
    one, [on_line] tells whether there is such a callback, and the result
    is [None] where the source returns [None]. *)
Definition invoke_tool {A : Type} (pf : platform) (command : list string)
    (tool_name : string) (mk_result : string -> A) (filename : option string)
    (on_line : bool) (check_enabled : bool) (w : tool_world A)
  : outcome (option A) * tool_world A :=
  let enabled :=
    if check_enabled then
      match flags (settings w) !! tool_enabled pf tool_name with
      | Some b => Done b
      | None => Failed (Builtin AttributeError)
      end
    else Done true in
  match enabled with
  | Failed e => (Failed e, w)
  | Done false => (Done None, w)
  | Done true =>
      match get_source_dir pf filename with
      | Failed e => (Failed e, w)
      | Done source_dir =>
          match ProcHelper_open pf command (Some source_dir) with
          | Failed (OSErrorWith errno) =>
              if (errno =? ENOENT)%Z then
                (Done None,
                 mkWorld (set_flag (settings w) (tool_enabled pf tool_name) false)
                         (shown w ++
                            ["SublimeHaskell: " +:+ tool_name +:+ " was not found!"
                             +:+ Client.newline +:+ "'" +:+ tool_enabled pf tool_name
                             +:+ "' is set to False"])
                         (delivered w))
              else (Done None, w)
          | Failed e => (Failed e, w)
          | Done proc =>
              let '(exit_code, stdout, stderr) := wait proc in
              if negb (exit_code =? 0)%Z
              then (Failed (ToolFailure tool_name exit_code stderr), w)
              else if on_line then
                (Done None,
                 mkWorld (settings w) (shown w)
                         (delivered w ++ map mk_result (lines_of stdout)))
              else (Done (Some (mk_result stdout)), w)
          end
      end
  end.

(** A platform for examples: an empty environment, every path a
    directory, POSIX separators, and the given ways to start a command and to
    find the cabal directory of a file. *)
Definition plain_platform (start : list string -> option string -> start_outcome)
    (cabal_project_dir : string -> option string) : platform :=
  mkPlatform ∅ false (fun _ => true) (fun p => p) (fun p _ => p) [] ":"
             "/home/user" "/" start cabal_project_dir
             (fun dir => dir +:+ "/pkg.cabal")
             (fun _ => Failed (Builtin ValueError))
             (fun tool => "enable_" +:+ tool)
             (fun _ => Ret []).

(** The tool may run: the check is off or its flag is set. *)
Definition is_enabled {A : Type} (pf : platform) (tool_name : string)
    (check_enabled : bool) (w : tool_world A) : Prop :=
  check_enabled = false
  \/ flags (settings w) !! tool_enabled pf tool_name = Some true.

(** No path comes before a longer one. *)
Fixpoint descending (l : list string) : Prop :=
  match l with
  | [] => True
  | p :: rest =>
      (forall q, In q rest -> String.length q <= String.length p)
      /\ descending rest
  end.

(** The settings with another [add_to_path]. *)
Definition with_add_to_path (st : plugin_settings) (dirs : list string)
  : plugin_settings :=
  mkSettings (add_standard_dirs st) dirs (ghc_opts st) (flags st).

(** A whole line: text without a line feed, and then one line feed. *)
Definition whole_line (l : string) : Prop :=
  exists body, l = body +:+ String Client.LF EmptyString
               /\ Shapes.has_char Client.LF body = false.

(** What follows the last line feed of a text that does not end with one:
    text without a line feed that is not empty. *)
Definition open_line (l : string) : Prop :=
  l <> "" /\ Shapes.has_char Client.LF l = false.

(** The lines of a text: whole lines, the last one possibly open. *)
Fixpoint lines_shape (ls : list string) : Prop :=
  match ls with
  | [] => True
  | l :: rest =>
      match rest with
      | [] => whole_line l \/ open_line l
      | _ :: _ => whole_line l /\ lines_shape rest
      end
  end.

End Launcher.

(** ** The options handed to ghc-mod: [get_ghc_opts] and its helpers *)

Module Options.
Import Re Launcher.

(** The pattern of [ghci_package_db]: the text [packages-], a group of
    [.*], and [.conf] with the dot taken literally. *)
Definition PACKAGE_CONF : regex :=
  Seq (lit "packages-") (Seq (Group "1" (Star (Chr dot))) (lit ".conf")).

(** [os.path.join(a, b)] with a list for [b]: no path comes of it
    ([TypeError]; [AttributeError] before Python 3.4). *)
Definition join_with_list (a : string) (b : list string) : outcome string :=
  Failed (Builtin TypeError).

(** [GHCModBackend.ghci_package_db]. *)
Definition ghci_package_db (pf : platform) (cabal : option string)
  : outcome (option string) :=
  match cabal with
  | None => Done None
  | Some dir =>
      if str_eqb dir "cabal" then Done None
      else
        match listdir pf dir with
        | Raise e => Failed (Builtin e)
        | Ret entries =>
            let package_conf :=
              List.filter (fun pkg => bool_decide (is_Some (re_match PACKAGE_CONF pkg)))
                          entries in
            match package_conf with
            | [] => Done None
            | _ => and_then (join_with_list dir package_conf) (fun p => Done (Some p))
            end
        end
  end.

(** The elements of [package_db or []]: none for [None] and for the empty
    text, the characters of any other text. *)
Definition each_of (package_db : option string) : list string :=
  match package_db with
  | None => []
  | Some s => map (fun c => String c EmptyString) (list_ascii_of_string s)
  end.

(** [Settings.PLUGIN.ghc_opts or []]: the configured list itself when it
    has elements, a new empty list otherwise. *)
Definition configured (st : plugin_settings) : list string :=
  match ghc_opts st with
  | Some l => l
  | None => []
  end.

Definition shares_configured (st : plugin_settings) : bool :=
  match ghc_opts st with
  | Some (_ :: _) => true
  | _ => false
  end.

(** The settings after the list [get_ghc_opts] works on has become
    [opts]: the configured list is that list when the two are one object. *)
Definition with_opts (st : plugin_settings) (opts : list string) : plugin_settings :=
  if shares_configured st
  then mkSettings (add_standard_dirs st) (add_to_path st) (Some opts) (flags st)
  else st.

(** [GHCModBackend.get_ghc_opts]: the options and the settings afterwards. *)
Definition get_ghc_opts (pf : platform) (filename : option string)
    (add_package_db : bool) (cabal : option string) (st : plugin_settings)
  : outcome (list string) * plugin_settings :=
  let ghc_opts := configured st in
  match (if add_package_db then ghci_package_db pf cabal else Done None) with
  | Failed e => (Failed e, st)
  | Done package_db =>
      let ghc_opts :=
        ghc_opts ++ map (fun pkgdb => "-package-db " +:+ pkgdb) (each_of package_db) in
      match truthy filename with
      | None => (Done ghc_opts, with_opts st ghc_opts)
      | Some f =>
          match get_source_dir pf (Some f) with
          | Failed e => (Failed e, with_opts st ghc_opts)
          | Done dir =>
              let ghc_opts := ghc_opts ++ ["-i " +:+ dir] in
              (Done ghc_opts, with_opts st ghc_opts)
          end
      end
  end.

End Options.

(** * Properties *)

Section StringFacts.

Lemma app_cons (c : ascii) (s t : string) :
  String c s +:+ t = String c (s +:+ t).
Proof. reflexivity. Qed.

Lemma app_empty_l (s : string) : "" +:+ s = s.
Proof. reflexivity. Qed.

Lemma app_assoc_str (a b c : string) : (a +:+ b) +:+ c = a +:+ b +:+ c.
Proof. induction a as [|x a IH]; [reflexivity|]. now rewrite !app_cons, IH. Qed.

Lemma app_empty_r (s : string) : s +:+ "" = s.
Proof. induction s as [|x s IH]; [reflexivity|]. now rewrite app_cons, IH. Qed.

Lemma length_app_str (a b : string) :
  String.length (a +:+ b) = String.length a + String.length b.
Proof. induction a as [|x a IH]; [reflexivity|]. rewrite app_cons. simpl. now rewrite IH. Qed.

Lemma rstrip_app_blank (a b : string) :
  rstrip b = "" -> rstrip (a +:+ b) = rstrip a.
Proof.
  intros Hb. induction a as [|c a IH].
  - exact Hb.
  - rewrite app_cons. simpl. now rewrite IH.
Qed.

Lemma rstrip_app_text (a b : string) :
  rstrip b <> "" -> rstrip (a +:+ b) = a +:+ rstrip b.
Proof.
  intros Hb. induction a as [|c a IH].
  - reflexivity.
  - rewrite !app_cons. simpl. rewrite IH.
    destruct (a +:+ rstrip b) eqn:E; [|reflexivity].
    destruct a; [now rewrite app_empty_l in E | discriminate].
Qed.

Lemma rstrip_newline (s : string) : rstrip (s +:+ Client.newline) = rstrip s.
Proof. now apply rstrip_app_blank. Qed.

Lemma rstrip_idem (s : string) : rstrip (rstrip s) = rstrip s.
Proof.
  induction s as [|c s IH]; [reflexivity|].
  simpl. destruct (rstrip s) eqn:E.
  - destruct (is_space c) eqn:Hc; [reflexivity|]. simpl. now rewrite Hc.
  - simpl in *. now rewrite IH.
Qed.

Lemma str_eqb_eq (a b : string) : str_eqb a b = true <-> a = b.
Proof. unfold str_eqb. apply bool_decide_eq_true. Qed.

Lemma str_eqb_neq (a b : string) : str_eqb a b = false <-> a <> b.
Proof. unfold str_eqb. apply bool_decide_eq_false. Qed.

End StringFacts.

Section ReadLoop.
Import Client Wire.

(** What the loop makes of a line that carries an entry. *)
Lemma framed_text (ch : channel) (body : string) :
  drop 3 (rstrip (marker ch +:+ body +:+ newline)) = rstrip body.
Proof.
  rewrite <- app_assoc_str, rstrip_newline.
  destruct (string_dec (rstrip body) "") as [E|E].
  - rewrite rstrip_app_blank by exact E. now destruct ch; rewrite E.
  - rewrite rstrip_app_text by exact E. now destruct ch.
Qed.

Lemma framed_prefix (ch : channel) (body : string) :
  take 3 (marker ch +:+ body +:+ newline) = marker ch.
Proof. now destruct ch. Qed.

Lemma read_loop_line (resp : string) (rest : list read_event) (out err : list string) :
  read_loop (Line resp :: rest) out err =
  if str_eqb resp "" then mkLoopEnd false out err [] rest
  else if str_eqb (take 3 resp) GHCMOD_OUTPUT_MARKER then
    if str_eqb (drop 3 (rstrip resp)) "OK"
    then mkLoopEnd false out err [] rest
    else read_loop rest (out ++ [rstrip (drop 3 (rstrip resp))]) err
  else if str_eqb (take 3 resp) GHCMOD_ERROR_MARKER then
    read_loop rest out (err ++ [rstrip (drop 3 (rstrip resp))])
  else if str_eqb (take 3 resp) "NG " then
    mkLoopEnd false out err ["Error response: " +:+ drop 3 (rstrip resp)] rest
  else
    mkLoopEnd false out err
      ["Unexpected reply from ghc-mod client: " +:+ drop 3 (rstrip resp)] rest.
Proof. reflexivity. Qed.

Lemma read_loop_entry (e : entry) (tail : list read_event) (out err : list string) :
  not_terminator e ->
  read_loop (reply_line e :: tail) out err =
  match fst e with
  | Normal => read_loop tail (out ++ [rstrip (snd e)]) err
  | Error => read_loop tail out (err ++ [rstrip (snd e)])
  end.
Proof.
  destruct e as [ch body]. unfold not_terminator, reply_line.
  cbn [fst snd]. intros Hnt.
  rewrite read_loop_line, framed_prefix, framed_text, rstrip_idem.
  replace (str_eqb (marker ch +:+ body +:+ newline) "") with false
    by (now destruct ch).
  destruct ch; simpl.
  - specialize (Hnt eq_refl). apply str_eqb_neq in Hnt. now rewrite Hnt.
  - reflexivity.
Qed.

(** The loop accumulates the entries of a stream, each on its channel
    and in the order read. *)
Lemma read_loop_entries (es : list entry) (tail : list read_event) :
  Forall not_terminator es ->
  forall out err,
    read_loop (map reply_line es ++ tail) out err =
    read_loop tail (out ++ channel_lines Normal (map strip_entry es))
                   (err ++ channel_lines Error (map strip_entry es)).
Proof.
  induction 1 as [|e es He _ IH]; intros out err.
  - simpl. now rewrite !app_nil_r.
  - change (map reply_line (e :: es) ++ tail)
      with (reply_line e :: (map reply_line es ++ tail)).
    rewrite read_loop_entry by exact He.
    destruct e as [[] body]; simpl; rewrite IH; simpl;
      now rewrite <- ?app_assoc.
Qed.

End ReadLoop.

Section Session.
Import Client Wire.

Lemma pipe_op_outcome (text : option string) (p : Popen) :
  exists p', stdout_pending p' = stdout_pending p /\
    (pipe_op text p = (Ret tt, p') \/ pipe_op text p = (Raise OSError, p')).
Proof.
  unfold pipe_op.
  destruct (stdin_faults p) as [|[] fs]; eexists;
    (split; [|first [left; reflexivity | right; reflexivity]]); reflexivity.
Qed.

(** Shutting a session with a process down never fails and leaves only
    the console text behind. *)
Lemma shutdown_with_process p perr lk d out :
  shutdown (mkClient (Some (mkProcHelper (Some p) perr)) lk d out) =
  (Ret tt, mkClient None None None out).
Proof.
  unfold shutdown, bind, send_blank_line, try_except_OSError, print_stdin,
    on_process, set_process, stop_drain, forget_session, ret.
  cbn [ghcmod process process_err action_lock stderr_drain console].
  destruct (pipe_op_outcome (Some "") p) as (p1 & _ & [-> | ->]);
    [destruct (pipe_op_outcome (Some newline) p1) as (p2 & _ & [-> | ->]);
     [destruct (pipe_op_outcome None p2) as (p3 & _ & [-> | ->])|]|];
    cbn [ghcmod process process_err action_lock stderr_drain console];
    destruct d as [[lbl []]|]; reflexivity.
Qed.

Lemma shutdown_without_session lk d out :
  shutdown (mkClient None lk d out) = (Ret tt, mkClient None None None out).
Proof. destruct d as [[lbl []]|]; reflexivity. Qed.

(** [read_response] on a session with a process, in terms of its loop. *)
Lemma read_response_with_process p perr lk d out :
  read_response (mkClient (Some (mkProcHelper (Some p) perr)) lk d out) =
  let e := read_loop (stdout_pending p) [] [] in
  (Ret (le_stdout e, le_stderr e),
   if le_oserror e then mkClient None None None (out ++ le_console e)
   else mkClient
          (Some (mkProcHelper
                   (Some (mkPopen (stdin_sent p) (stdin_faults p) (le_pending e)))
                   perr))
          lk d (out ++ le_console e)).
Proof.
  unfold read_response, bind, run_read_loop, on_process, set_process,
    sys_stdout_write, ret.
  cbn [ghcmod process process_err action_lock stderr_drain console].
  cbv zeta. destruct (le_oserror (read_loop (stdout_pending p) [] [])).
  - now rewrite shutdown_with_process.
  - reflexivity.
Qed.

Lemma read_loop_terminator rest out err :
  read_loop (terminator :: rest) out err = mkLoopEnd false out err [] rest.
Proof. reflexivity. Qed.

End Session.

Section SessionProtocol.
Import Client Wire.

(** A line [O: OK], also with white space after it, ends the loop. *)
Lemma read_loop_ok_line (ok : string) rest out err :
  rstrip ok = "OK" ->
  read_loop (reply_line (Normal, ok) :: rest) out err = mkLoopEnd false out err [] rest.
Proof.
  unfold reply_line. cbn [fst snd]. intros H.
  rewrite read_loop_line, framed_prefix, framed_text, H.
  reflexivity.
Qed.

(** C1.  On a stream of entries of the two channels, none of which is
    [O: OK] once its trailing white space is removed, followed by a line
    [O: OK] (with or without white space after it), [read_response] returns
    exactly the texts of the normal and of the error channel read before that
    line, each without its prefix and without its trailing white space, in
    the order read; the terminator is consumed and is in neither channel. *)
Theorem read_response_complete_reply
    (p : Popen) (perr : option string) (lk : option Lock)
    (d : option DescriptorDrain) (out : list string)
    (es : list entry) (ok : string) (rest : list read_event) :
  stdout_pending p = map reply_line es ++ reply_line (Normal, ok) :: rest ->
  rstrip ok = "OK" ->
  Forall not_terminator es ->
  read_response (mkClient (Some (mkProcHelper (Some p) perr)) lk d out) =
  (Ret (channel_lines Normal (map strip_entry es),
        channel_lines Error (map strip_entry es)),
   mkClient (Some (mkProcHelper
                     (Some (mkPopen (stdin_sent p) (stdin_faults p) rest)) perr))
            lk d out).
Proof.
  intros Hp Hok Hnt. rewrite read_response_with_process, Hp.
  rewrite read_loop_entries by exact Hnt.
  rewrite read_loop_ok_line by exact Hok. cbv zeta.
  cbn [le_stdout le_stderr le_oserror le_console le_pending].
  now rewrite app_nil_r.
Qed.

Lemma read_response_complete_reply_witness :
  read_response
    (live_client
       (mkPopen [] []
          [reply_line (Normal, "Data.List"); reply_line (Error, "no cabal file  ");
           reply_line (Normal, "Data.Map"); terminator;
           reply_line (Normal, "Prelude")])
       None None []) =
  (Ret (["Data.List"; "Data.Map"], ["no cabal file"]),
   live_client (mkPopen [] [] [reply_line (Normal, "Prelude")]) None None []).
Proof.
  apply (read_response_complete_reply
           (mkPopen [] []
              [reply_line (Normal, "Data.List"); reply_line (Error, "no cabal file  ");
               reply_line (Normal, "Data.Map"); terminator;
               reply_line (Normal, "Prelude")])
           None (Some MkLock) None []
           [(Normal, "Data.List"); (Error, "no cabal file  "); (Normal, "Data.Map")]
           "OK"
           [reply_line (Normal, "Prelude")]).
  - reflexivity.
  - reflexivity.
  - repeat constructor; simpl; discriminate.
Defined.

(** The lines are not returned with only their prefix removed: the reply
    line [O: foo] with two blanks after it is returned as [foo], and a line
    [O: OK] with blanks after it ends the reply instead of being returned. *)
Lemma trailing_white_space_is_stripped :
  (read_response
     (live_client (mkPopen [] [] [reply_line (Normal, "foo  "); terminator])
                  None None []) =
   (Ret (["foo"], []), live_client (mkPopen [] [] []) None None [])
   /\ ["foo"] <> ["foo  "])
  /\ read_response
       (live_client
          (mkPopen [] []
             [reply_line (Normal, "OK  "); reply_line (Normal, "late"); terminator])
          None None []) =
     (Ret ([], []),
      live_client (mkPopen [] [] [reply_line (Normal, "late"); terminator])
                  None None []).
Proof. split; [split; [reflexivity | discriminate] | reflexivity]. Qed.

(** C2, as the code has it.  At the end of the stream the loop ends and
    [read_response] returns what it has accumulated; the session is left
    as it was, with its process, lock and drain, and is not shut down. *)
Theorem read_response_end_of_stream
    (p : Popen) (perr : option string) (d : option DescriptorDrain)
    (out : list string) (es : list entry) :
  stdout_pending p = map reply_line es ->
  Forall not_terminator es ->
  read_response (live_client p perr d out) =
  (Ret (channel_lines Normal (map strip_entry es),
        channel_lines Error (map strip_entry es)),
   live_client (mkPopen (stdin_sent p) (stdin_faults p) []) perr d out)
  /\ is_dead (snd (read_response (live_client p perr d out))) = false.
Proof.
  intros Hp Hnt.
  assert (E : read_response (live_client p perr d out) =
    (Ret (channel_lines Normal (map strip_entry es),
          channel_lines Error (map strip_entry es)),
     live_client (mkPopen (stdin_sent p) (stdin_faults p) []) perr d out)).
  { unfold live_client. rewrite read_response_with_process, Hp.
    rewrite <- (app_nil_r (map reply_line es)).
    rewrite read_loop_entries by exact Hnt. simpl. now rewrite app_nil_r. }
  now rewrite E.
Qed.

Lemma read_response_end_of_stream_witness :
  read_response
    (live_client (mkPopen [] [] [reply_line (Normal, "Data.List")]) None None []) =
  (Ret (["Data.List"], []), live_client (mkPopen [] [] []) None None [])
  /\ is_dead (snd (read_response
       (live_client (mkPopen [] [] [reply_line (Normal, "Data.List")])
                    None None []))) = false.
Proof.
  apply (read_response_end_of_stream
           (mkPopen [] [] [reply_line (Normal, "Data.List")]) None None []
           [(Normal, "Data.List")]).
  - reflexivity.
  - repeat constructor; simpl; discriminate.
Defined.

(** C2 as stated fails: a session whose subprocess has closed its output
    returns the empty reply from [read_response] and is not marked dead;
    the next command on it is carried out. *)
Lemma end_of_stream_keeps_session :
  let c := live_client (mkPopen [] [] []) None
                       (Some (mkDrain "ghc-mod proj" true)) [] in
  read_response c = (Ret ([], []), c)
  /\ is_dead (snd (read_response c)) = false
  /\ fst (command_backend "lang" (snd (read_response c))) = Ret ([], [])
  /\ is_dead (snd (command_backend "lang" (snd (read_response c)))) = false.
Proof. repeat split. Qed.

Lemma read_response_read_failure p perr lk d out es rest :
  stdout_pending p = map reply_line es ++ ReadFails :: rest ->
  Forall not_terminator es ->
  read_response (mkClient (Some (mkProcHelper (Some p) perr)) lk d out) =
  (Ret (channel_lines Normal (map strip_entry es),
        channel_lines Error (map strip_entry es)),
   mkClient None None None out).
Proof.
  intros Hp Hnt. rewrite read_response_with_process, Hp.
  rewrite read_loop_entries by exact Hnt. simpl. now rewrite app_nil_r.
Qed.

Lemma on_oserror_with_process p perr lk d out :
  on_oserror (mkClient (Some (mkProcHelper (Some p) perr)) lk d out) =
  (Ret ([], []), mkClient None None None out).
Proof. unfold on_oserror, bind. now rewrite shutdown_with_process. Qed.

Ltac step_pipe :=
  unfold run, command_backend, map_file, unmap_file, with_action_lock,
    try_except_OSError, bind, print_stdin, stdin_write, stdin_flush,
    on_process, set_process, pipe_op, ret, live_client,
    write_fails, pipe_ops in *;
  cbn [ghcmod process process_err action_lock stderr_drain console
       stdin_sent stdin_faults stdout_pending firstn existsb] in *.

(** C3, as the code has it.  On a session with a process, an [OSError]
    while a command is written shuts the session down and the call
    returns the empty channels; an [OSError] while the reply is read shuts
    the session down and the call returns the lines accumulated before the
    error.  In neither case does the error reach the caller. *)
Theorem io_error_shuts_session_down
    (op : operation) (p : Popen) (perr : option string)
    (d : option DescriptorDrain) (out : list string) (r : reply) :
  io_failure op p r ->
  run op (live_client p perr d out) = (Ret r, mkClient None None None out).
Proof.
  destruct p as [sent faults pending].
  intros [Hw | es rest Hw Hp Hnt].
  - destruct op; step_pipe;
      destruct faults as [|[] [|[] [|[] [|[] [|[] fs]]]]];
      cbn [firstn existsb orb] in Hw; try discriminate Hw;
      cbn [ghcmod process process_err action_lock stderr_drain console
           stdin_sent stdin_faults stdout_pending];
      now rewrite on_oserror_with_process.
  - cbn [stdout_pending] in Hp.
    destruct op; step_pipe;
      destruct faults as [|[] [|[] [|[] [|[] [|[] fs]]]]];
      cbn [firstn existsb orb] in Hw; try discriminate Hw;
      cbn [ghcmod process process_err action_lock stderr_drain console
           stdin_sent stdin_faults stdout_pending];
      (erewrite read_response_read_failure; [reflexivity | exact Hp | exact Hnt]).
Qed.

Lemma io_error_shuts_session_down_witness :
  run (MapFile "Foo.hs" "main = print 1")
      (live_client (mkPopen [] [false; false; true] []) None None []) =
  (Ret ([], []), mkClient None None None []).
Proof.
  apply (io_error_shuts_session_down
           (MapFile "Foo.hs" "main = print 1")
           (mkPopen [] [false; false; true] []) None None [] ([], [])).
  apply WriteFailure. reflexivity.
Defined.

(** C3 as stated fails: when the read after the first reply line raises
    [OSError], the call returns that line instead of the empty channels. *)
Lemma read_error_returns_partial_reply :
  let c := live_client
             (mkPopen [] [] [reply_line (Normal, "Foo.hs:1:1: oops"); ReadFails])
             None None [] in
  command_backend "check Foo.hs" c =
    (Ret (["Foo.hs:1:1: oops"], []), mkClient None None None [])
  /\ fst (command_backend "check Foo.hs" c) <> Ret ([], []).
Proof. split; [reflexivity | discriminate]. Qed.

(** C4, at the failing input.  Shutting down a session that has been shut
    down changes nothing and raises nothing, but every operation on such a
    session raises [AttributeError] at [with self.action_lock] instead of
    returning the empty channels. *)
Theorem operation_on_dead_session_raises
    (op : operation) (p : Popen) (perr : option string)
    (d : option DescriptorDrain) (out : list string) :
  let dead := snd (shutdown (live_client p perr d out)) in
  is_dead dead = true
  /\ shutdown dead = (Ret tt, dead)
  /\ run op dead = (Raise AttributeError, dead).
Proof.
  unfold live_client. rewrite shutdown_with_process. cbn [snd].
  repeat split. now destruct op.
Qed.

(** How a caller reaches a dead session: the pipe breaks under one command,
    which returns the empty channels, and the next command raises. *)
Example command_after_broken_pipe :
  let c := live_client (mkPopen [] [true] []) None None [] in
  fst (command_backend "lang" c) = Ret ([], [])
  /\ is_dead (snd (command_backend "lang" c)) = true
  /\ fst (command_backend "flag" (snd (command_backend "lang" c))) =
     Raise AttributeError.
Proof. repeat split. Qed.

End SessionProtocol.

(** ** The matcher against the declarative reading of patterns *)

Section Matcher.
Import Re.

Lemma take_app_length (w r : string) :
  take (String.length (w +:+ r) - String.length r) (w +:+ r) = w.
Proof.
  rewrite length_app_str.
  replace (String.length w + String.length r - String.length r)
    with (String.length w) by lia.
  induction w as [|c w IH]; [now destruct r|].
  rewrite app_cons. simpl. now rewrite IH.
Qed.

(** A match consumes a prefix of the text ahead. *)
Lemma Matches_rest r st w st' :
  Matches r st w st' -> rest st = w +:+ rest st'.
Proof.
  induction 1; cbn [rest] in *;
    rewrite ?app_empty_l, ?app_assoc_str; try congruence.
  - now rewrite H.
Qed.

Lemma consumed_word r st w st' :
  Matches r st w st' -> consumed st st' = w.
Proof.
  intros H. unfold consumed. rewrite (Matches_rest _ _ _ _ H).
  apply take_app_length.
Qed.

(** Whatever the matcher finds is a match, and the rest of the pattern
    succeeded after it. *)
Lemma exec_sound r :
  forall st k res,
    exec r st k = Some res ->
    exists w st', Matches r st w st' /\ k st' = Some res.
Proof.
  induction r as [|p|r1 IH1 r2 IH2|r1 IH1 r2 IH2|r1 IH1|name r1 IH1| |];
    intros st k res H; cbn [exec] in H.
  - exists "", st. split; [constructor | exact H].
  - destruct (rest st) as [|c t] eqn:E; [discriminate|].
    destruct (p c) eqn:Hp; [|discriminate].
    exists (String c ""), (mkState (Some c) t (caps st)).
    split; [now apply M_Chr | exact H].
  - apply IH1 in H as (w1 & st1 & H1 & H).
    apply IH2 in H as (w2 & st2 & H2 & H).
    exists (w1 +:+ w2), st2. split; [now apply M_Seq with st1 | exact H].
  - destruct (exec r1 st k) as [res1|] eqn:E1.
    + injection H as ->. apply IH1 in E1 as (w & st' & H1 & Hk).
      exists w, st'. split; [now apply M_AltL | exact Hk].
    + apply IH2 in H as (w & st' & H2 & Hk).
      exists w, st'. split; [now apply M_AltR | exact Hk].
  - remember (String.length (rest st)) as fuel eqn:Ef. clear Ef.
    revert st H. induction fuel as [|fuel IHf]; intros st H.
    + exists "", st. split; [constructor | exact H].
    + match type of H with
      | match ?e with _ => _ end = _ => destruct e as [res1|] eqn:E1
      end.
      * injection H as ->. apply IH1 in E1 as (w1 & st1 & H1 & Hk).
        destruct (String.length (rest st1) <? String.length (rest st));
          [|discriminate].
        apply IHf in Hk as (w2 & st2 & H2 & Hk).
        exists (w1 +:+ w2), st2. split; [now apply M_StarS with st1 | exact Hk].
      * exists "", st. split; [constructor | exact H].
  - apply IH1 in H as (w & st1 & H1 & Hk).
    exists w, (mkState (prev st1) (rest st1) (<[name := w]> (caps st1))).
    split; [now apply M_Group|].
    unfold capture in Hk. now rewrite (consumed_word _ _ _ _ H1) in Hk.
  - destruct (at_line_start st) eqn:E; [|discriminate].
    exists "", st. split; [now constructor | exact H].
  - destruct (at_line_end st) eqn:E; [|discriminate].
    exists "", st. split; [now constructor | exact H].
Qed.

(** Every match [finditer] reports is a match of the pattern somewhere in
    the text, started with no group set. *)
Lemma finditer_sound r s m :
  In m (finditer r s) ->
  exists st w st', caps st = ∅ /\ Matches r st w st' /\ m = caps st'.
Proof.
  unfold finditer. generalize 0 at 1. generalize (@None ascii).
  induction s as [|c t IH]; intros before skip Hin.
  - destruct skip; [|contradiction]. cbn [scan] in Hin.
    destruct (exec r (mkState before "" ∅) Some) as [st'|] eqn:E;
      [|contradiction].
    destruct Hin as [<-|[]].
    apply exec_sound in E as (w & st2 & HM & [= ->]).
    now exists (mkState before "" ∅), w, st'.
  - destruct skip as [|skip]; cbn [scan] in Hin; [|now apply IH in Hin].
    destruct (exec r (mkState before (String c t) ∅) Some) as [st'|] eqn:E.
    + destruct Hin as [<-|Hin]; [|now apply IH in Hin].
      apply exec_sound in E as (w & st2 & HM & [= ->]).
      now exists (mkState before (String c t) ∅), w, st'.
    + now apply IH in Hin.
Qed.

(** A match leaves the groups of other patterns as they were. *)
Lemma Matches_other_groups r st w st' name :
  Matches r st w st' -> ~ In name (groups r) ->
  caps st' !! name = caps st !! name.
Proof.
  induction 1; cbn [groups caps] in *; intros Hn;
    rewrite ?in_app_iff in Hn; try reflexivity.
  - rewrite IHMatches2, IHMatches1; first [reflexivity | tauto].
  - tauto.
  - tauto.
  - rewrite IHMatches2, IHMatches1; first [reflexivity | tauto].
  - rewrite lookup_insert_ne by (intros ->; apply Hn; now left).
    apply IHMatches. intros Hin. apply Hn. now right.
Qed.

(** The text of a repeated character class. *)
Lemma Matches_star_chr p st w st' :
  Matches (Star (Chr p)) st w st' ->
  forallb p (list_ascii_of_string w) = true.
Proof.
  remember (Star (Chr p)) as r eqn:Er. induction 1; try discriminate.
  - reflexivity.
  - injection Er as ->. specialize (IHMatches2 eq_refl).
    inversion H; subst. rewrite app_cons, app_empty_l.
    cbn [list_ascii_of_string forallb].
    match goal with Hp : p _ = true |- _ => now rewrite Hp, IHMatches2 end.
Qed.

End Matcher.

(** ** What the two grammars capture *)

Section Grammars.
Import Re Patterns Translate Grammar.

Lemma Matches_Seq_inv r1 r2 st w st' :
  Matches (Seq r1 r2) st w st' ->
  exists w1 st1 w2,
    w = w1 +:+ w2 /\ Matches r1 st w1 st1 /\ Matches r2 st1 w2 st'.
Proof. inversion 1; subst. eauto 7. Qed.

Lemma Matches_Group_inv name r st w st' :
  Matches (Group name r) st w st' ->
  caps st' !! name = Some w
  /\ exists st1, Matches r st w st1
       /\ forall other, other <> name -> caps st' !! other = caps st1 !! other.
Proof.
  inversion 1; subst. cbn [caps]. split; [apply lookup_insert_eq|].
  eexists. split; [eassumption|]. intros other Ho.
  now rewrite lookup_insert_ne by congruence.
Qed.

Lemma Matches_Alt_inv r1 r2 st w st' :
  Matches (Alt r1 r2) st w st' -> Matches r1 st w st' \/ Matches r2 st w st'.
Proof. inversion 1; subst; auto. Qed.

Lemma Matches_Eps_inv st w st' : Matches Eps st w st' -> w = "" /\ st' = st.
Proof. now inversion 1. Qed.

Lemma Matches_Chr_inv p st w st' :
  Matches (Chr p) st w st' ->
  exists c, w = String c "" /\ p c = true /\ caps st' = caps st.
Proof. inversion 1; subst. eauto. Qed.

Lemma Matches_lit_inv s st w st' :
  Matches (lit s) st w st' -> w = s /\ caps st' = caps st.
Proof.
  revert st w. induction s as [|c s IH]; intros st w H; cbn [lit] in H.
  - apply Matches_Eps_inv in H as [-> ->]. now split.
  - apply Matches_Seq_inv in H as (w1 & st1 & w2 & -> & H1 & H2).
    apply Matches_Chr_inv in H1 as (c' & -> & Hc & E1).
    apply IH in H2 as [-> E2].
    apply Ascii.eqb_eq in Hc as <-. split; [reflexivity | congruence].
Qed.

Lemma Matches_plus_chr p st w st' :
  Matches (plus (Chr p)) st w st' ->
  w <> "" /\ forallb p (list_ascii_of_string w) = true.
Proof.
  unfold plus. intros H.
  apply Matches_Seq_inv in H as (w1 & st1 & w2 & -> & H1 & H2).
  apply Matches_Chr_inv in H1 as (c & -> & Hc & _).
  apply Matches_star_chr in H2. rewrite app_cons, app_empty_l.
  split; [discriminate|]. cbn [list_ascii_of_string forallb].
  now rewrite Hc, H2.
Qed.

Lemma Matches_FLAG st w st' :
  Matches FLAG st w st' ->
  caps st' !! "flag" = Some w
  /\ (w = "*" \/ w = "Warning:" \/ w = "warning:").
Proof.
  unfold FLAG. intros H.
  apply Matches_Group_inv in H as (Hcap & st1 & H & _).
  split; [exact Hcap|].
  apply Matches_Alt_inv in H as [H|H].
  - apply Matches_lit_inv in H as [-> _]. now left.
  - apply Matches_Seq_inv in H as (w1 & st2 & w2 & -> & H1 & H2).
    apply Matches_Chr_inv in H1 as (c & -> & Hc & _).
    apply Matches_lit_inv in H2 as [-> _].
    unfold one_of in Hc. cbn [list_ascii_of_string existsb] in Hc.
    rewrite orb_false_r in Hc. apply orb_true_iff in Hc as [Hc|Hc];
      apply Ascii.eqb_eq in Hc as ->; auto.
Qed.

Ltac not_a_group := vm_compute; intuition discriminate.

Ltac head_of H w1 st1 w2 H1 :=
  apply Matches_Seq_inv in H as (w1 & st1 & w2 & -> & H1 & H).

(** The prefix sets [file], [line] and [col], and sets [flag] only to one
    of its three tokens. *)
Lemma prefix_sets_groups st w st' :
  Matches FILE_LINE_COL_REGEX st w st' ->
  caps st !! "flag" = None ->
  prefix_captured (caps st').
Proof.
  unfold FILE_LINE_COL_REGEX, seq_of. cbn [fold_right]. intros H Hflag.
  head_of H w1 s1 w1' H1. head_of H w2 s2 w2' H2.
  head_of H w3 s3 w3' H3.
  pose proof (Matches_other_groups _ _ _ _ "file" H ltac:(not_a_group)) as Efile.
  head_of H w4 s4 w4' H4. head_of H w5 s5 w5' H5.
  pose proof (Matches_other_groups _ _ _ _ "line" H ltac:(not_a_group)) as Eline.
  head_of H w6 s6 w6' H6. head_of H w7 s7 w7' H7.
  pose proof (Matches_other_groups _ _ _ _ "col" H ltac:(not_a_group)) as Ecol.
  head_of H w8 s8 w8' H8. head_of H w9 s9 w9' H9.
  apply Matches_Eps_inv in H as [-> ->].
  unfold prefix_captured, group. split; [|split; [|split]].
  - apply Matches_Group_inv in H3 as [E _]. exists w3. now rewrite Efile.
  - apply Matches_Group_inv in H5 as (E & sx & HM & _).
    exists w5. rewrite Eline. split; [exact E|].
    now apply Matches_plus_chr in HM.
  - apply Matches_Group_inv in H7 as (E & sx & HM & _).
    exists w7. rewrite Ecol. split; [exact E|].
    now apply Matches_plus_chr in HM.
  - assert (E8 : caps s8 !! "flag" = None).
    { rewrite (Matches_other_groups _ _ _ _ "flag" H8 ltac:(not_a_group)).
      rewrite (Matches_other_groups _ _ _ _ "flag" H7 ltac:(not_a_group)).
      rewrite (Matches_other_groups _ _ _ _ "flag" H6 ltac:(not_a_group)).
      rewrite (Matches_other_groups _ _ _ _ "flag" H5 ltac:(not_a_group)).
      rewrite (Matches_other_groups _ _ _ _ "flag" H4 ltac:(not_a_group)).
      rewrite (Matches_other_groups _ _ _ _ "flag" H3 ltac:(not_a_group)).
      rewrite (Matches_other_groups _ _ _ _ "flag" H2 ltac:(not_a_group)).
      now rewrite (Matches_other_groups _ _ _ _ "flag" H1 ltac:(not_a_group)). }
    unfold opt in H9. apply Matches_Alt_inv in H9 as [H9|H9].
    + apply Matches_Group_inv in H9 as (_ & sx & HM & Hother).
      rewrite Hother by discriminate.
      head_of HM v1 t1 v1' G1. head_of HM v2 t2 v2' G2.
      rewrite (Matches_other_groups _ _ _ _ "flag" HM ltac:(not_a_group)).
      apply Matches_FLAG in G2 as [-> Hw]. unfold flag_token.
      destruct Hw as [->| [->| ->]]; auto.
    + apply Matches_Eps_inv in H9 as [_ ->]. left. exact E8.
Qed.

(** Every match of the check grammar holds the prefix groups and
    [details]. *)
Lemma check_match_groups (text : string) (m : match_object) :
  In m (finditer GHC_CHECK_REGEX text) ->
  prefix_captured m /\ exists d, group m "details" = Some d.
Proof.
  intros Hin. apply finditer_sound in Hin as (st & w & st' & H0 & H & ->).
  unfold GHC_CHECK_REGEX in H. head_of H w1 s1 w2 H1.
  apply prefix_sets_groups in H1; [|now rewrite H0].
  pose proof (Matches_Group_inv _ _ _ _ _ H) as (Hd & _).
  split; [|now exists w2].
  destruct H1 as ((f & Hf) & (l & Hl & Nl) & (c & Hc & Nc) & Hflag).
  unfold prefix_captured, group in *.
  rewrite !(Matches_other_groups _ _ _ _ _ H) by not_a_group.
  eauto 10.
Qed.

(** Every match of the lint grammar holds the prefix groups, [msg] and
    [details]. *)
Lemma lint_match_groups (text : string) (m : match_object) :
  In m (finditer GHC_LINT_REGEX text) ->
  prefix_captured m
  /\ exists msg d, group m "msg" = Some msg /\ group m "details" = Some d.
Proof.
  intros Hin. apply finditer_sound in Hin as (st & w & st' & H0 & H & ->).
  unfold GHC_LINT_REGEX in H. head_of H w1 s1 w2 H1.
  apply prefix_sets_groups in H1; [|now rewrite H0].
  split.
  - destruct H1 as ((f & Hf) & (l & Hl & Nl) & (c & Hc & Nc) & Hflag).
    unfold prefix_captured, group in *.
    rewrite !(Matches_other_groups _ _ _ _ _ H) by not_a_group.
    eauto 10.
  - head_of H v1 t1 v2 G1.
    apply Matches_Group_inv in G1 as (Hmsg & _).
    pose proof (Matches_Group_inv _ _ _ _ _ H) as (Hd & _).
    exists v1, v2. unfold group. split; [|exact Hd].
    now rewrite (Matches_other_groups _ _ _ _ "msg" H ltac:(not_a_group)).
Qed.

Lemma int_of_number (s : string) :
  is_number s -> exists z, int (Some s) = Ret z.
Proof.
  intros [Hne Hd]. unfold int. apply str_eqb_neq in Hne.
  rewrite Hne, Hd. eauto.
Qed.

End Grammars.

Section Diagnostics.
Import Re Patterns Translate Grammar.

Lemma grammar_match_groups g text m :
  In m (finditer (pattern_of g) text) -> prefix_captured m.
Proof.
  destruct g; intros H.
  - now apply check_match_groups in H.
  - now apply lint_match_groups in H.
Qed.

(** C5, as the code has it.  In every match of the check grammar the group
    [flag] is unset or holds one of [*], [Warning:] and [warning:];
    [translate_check] gives the record the level [warning] exactly when
    the flag, in lower case, starts with [warning], which is exactly when
    it is [Warning:] or [warning:], and the level [error] otherwise. *)
Theorem check_level_follows_flag
    (project_dir text : string) (m : match_object) :
  In m (finditer GHC_CHECK_REGEX text) ->
  flag_token (group m "flag")
  /\ exists d,
       translate_check (Some project_dir) m = Ret d
       /\ (level d = "warning" <->
           exists f, group m "flag" = Some f
                     /\ startswith (lower f) "warning" = true)
       /\ (level d = "warning" <->
           group m "flag" = Some "Warning:" \/ group m "flag" = Some "warning:")
       /\ (level d <> "warning" -> level d = "error").
Proof.
  intros Hin. apply check_match_groups in Hin as [Hp _].
  destruct Hp as ((f & Hf) & (l & Hl & Nl) & (c & Hc & Nc) & Hflag).
  split; [exact Hflag|].
  apply int_of_number in Nl as [zl El]. apply int_of_number in Nc as [zc Ec].
  unfold translate_check. rewrite Hl, Hc, Hf, El, Ec.
  cbn [bind_result reconcile]. destruct (negb (PosixPath.isabs f));
    cbn [bind_result]; (eexists; split; [reflexivity|]); cbn [level];
    destruct Hflag as [-> | [-> | [-> | ->]]]; cbn;
    (split; [|split]); try (split; intros H); try tauto; try discriminate;
    try (destruct H as (f' & [= <-] & H); discriminate);
    try (destruct H as [H|H]; discriminate);
    try (eexists; split; reflexivity); auto; try (intros H; now elim H).
Qed.

Lemma check_level_follows_flag_witness :
  let m := hd ∅ (finditer GHC_CHECK_REGEX "Foo.hs:3:7: warning: x shadows y") in
  flag_token (group m "flag")
  /\ exists d,
       translate_check (Some "/proj") m = Ret d
       /\ (level d = "warning" <->
           exists f, group m "flag" = Some f
                     /\ startswith (lower f) "warning" = true)
       /\ (level d = "warning" <->
           group m "flag" = Some "Warning:" \/ group m "flag" = Some "warning:")
       /\ (level d <> "warning" -> level d = "error").
Proof.
  apply (check_level_follows_flag "/proj" "Foo.hs:3:7: warning: x shadows y").
  vm_compute. left. reflexivity.
Defined.

(** C5 as stated fails: a line whose token after the position is
    [WARNING:], which in lower case starts with [warning], is matched by
    the check grammar with no flag and is classified [error]. *)
Lemma uppercase_warning_is_error :
  let ms := finditer GHC_CHECK_REGEX "Foo.hs:3:7: WARNING: x shadows y" in
  startswith (lower "WARNING:") "warning" = true
  /\ map (fun m => group m "flag") ms = [None]
  /\ map (translate_check (Some "/proj")) ms =
     [Ret (mkDiagnostic "error"
             (mkNote (Some " WARNING: x shadows y") None)
             (mkRegion (mkPosition 1 3) (mkPosition 7 3))
             (mkSource "/proj/Foo.hs" None))].
Proof. vm_compute. repeat split. Qed.

(** C6.  In every record either translation produces from a match of its
    grammar, the file is the reported one when that is absolute, and
    otherwise the reported one joined to the project directory and
    normalised. *)
Theorem diagnostic_file_reconciled
    (g : grammar) (project_dir text : string) (m : match_object) :
  In m (finditer (pattern_of g) text) ->
  exists f d,
    group m "file" = Some f
    /\ translate_of g (Some project_dir) m = Ret d
    /\ (PosixPath.isabs f = false ->
        file (diag_source d) = PosixPath.normpath (PosixPath.join project_dir f))
    /\ (PosixPath.isabs f = true -> file (diag_source d) = f).
Proof.
  intros Hin. apply grammar_match_groups in Hin.
  destruct Hin as ((f & Hf) & (l & Hl & Nl) & (c & Hc & Nc) & _).
  apply int_of_number in Nl as [zl El]. apply int_of_number in Nc as [zc Ec].
  exists f.
  destruct g; unfold translate_of, translate_check, translate_lint;
    rewrite Hl, Hc, Hf, El, Ec; cbn [bind_result reconcile];
    destruct (PosixPath.isabs f); cbn [negb bind_result];
    (eexists; split; [reflexivity|split; [reflexivity|]]);
    cbn [file diag_source]; split; intros H; try reflexivity; discriminate.
Qed.

Lemma diagnostic_file_reconciled_witness :
  (exists d,
     translate_check (Some "/proj")
       (hd ∅ (finditer GHC_CHECK_REGEX "Foo.hs:3:7: Warning: x shadows y")) = Ret d
     /\ file (diag_source d) = "/proj/Foo.hs")
  /\ (exists d,
     translate_lint (Some "/proj")
       (hd ∅ (finditer GHC_LINT_REGEX
                ("/src/Foo.hs:10:1: Eta reduce" +:+ String LF "Found: ..."))) = Ret d
     /\ file (diag_source d) = "/src/Foo.hs").
Proof.
  split.
  - destruct (diagnostic_file_reconciled CheckGrammar "/proj"
                "Foo.hs:3:7: Warning: x shadows y"
                (hd ∅ (finditer GHC_CHECK_REGEX "Foo.hs:3:7: Warning: x shadows y")))
      as (f & d & Hf & Hd & Hrel & _).
    + vm_compute. left. reflexivity.
    + exists d. split; [exact Hd|].
      vm_compute in Hf. injection Hf as <-. now rewrite Hrel.
  - destruct (diagnostic_file_reconciled LintGrammar "/proj"
                ("/src/Foo.hs:10:1: Eta reduce" +:+ String LF "Found: ...")
                (hd ∅ (finditer GHC_LINT_REGEX
                   ("/src/Foo.hs:10:1: Eta reduce" +:+ String LF "Found: ..."))))
      as (f & d & Hf & Hd & _ & Habs).
    + vm_compute. left. reflexivity.
    + exists d. split; [exact Hd|].
      vm_compute in Hf. injection Hf as <-. now rewrite Habs.
Defined.

(** C7.  The check grammar and [translate_check] with the project
    directory [/proj] turn the line [Foo.hs:3:7: Warning: x shadows y]
    into exactly one record: level [warning], message [x shadows y], the
    region from column 1 to column 7 of line 3, and the file
    [/proj/Foo.hs]. *)
Theorem check_scenario :
  map (translate_check (Some "/proj"))
      (finditer GHC_CHECK_REGEX "Foo.hs:3:7: Warning: x shadows y") =
  [Ret (mkDiagnostic "warning"
          (mkNote (Some "x shadows y") None)
          (mkRegion (mkPosition 1 3) (mkPosition 7 3))
          (mkSource "/proj/Foo.hs" None))].
Proof. vm_compute. reflexivity. Qed.

End Diagnostics.

Section Registry.
Import Client Re Patterns Translate Backend.

(** C10.  For a project without a session in [project_backends],
    [scope_modules], [langs], [flags] and, for an exact lookup of a dotted
    name, [module] raise [ValueError] when the empty list is unpacked into
    two names; nothing is handed to the dispatch callback, and the backend
    is left as it was. *)
Theorem unregistered_project_raises
    (h : host) (B : GHCModBackend)
    (project_name filename lookup search_type dotted : string) :
  project_backends B !! project_name = None ->
  is_Some (re_match DOTTED_NAME dotted) ->
  scope_modules h project_name filename lookup search_type B = (Raise ValueError, B)
  /\ langs project_name B = (Raise ValueError, B)
  /\ flags project_name B = (Raise ValueError, B)
  /\ module project_name dotted "exact" B = (Raise ValueError, B).
Proof.
  intros Hnone Hdotted.
  unfold scope_modules, langs, flags, module, bind, command_or_empty, lift.
  rewrite Hnone. cbn [unpack_pair].
  rewrite (bool_decide_eq_true_2 _ Hdotted).
  change (str_eqb "exact" "exact") with true. cbn [andb].
  rewrite Hnone. repeat split.
Qed.

Lemma unregistered_project_raises_witness :
  let h := mkHost (fun _ _ => NotFound) (fun _ _ => Ret []) (fun _ _ => Ret false) in
  let B := mkBackend ∅ ∅ [] in
  scope_modules h "proj" "Foo.hs" "" "prefix" B = (Raise ValueError, B)
  /\ langs "proj" B = (Raise ValueError, B)
  /\ flags "proj" B = (Raise ValueError, B)
  /\ module "proj" "Data.List" "exact" B = (Raise ValueError, B).
Proof.
  apply (unregistered_project_raises
           (mkHost (fun _ _ => NotFound) (fun _ _ => Ret []) (fun _ _ => Ret false))
           (mkBackend ∅ ∅ []) "proj" "Foo.hs" "" "prefix" "Data.List").
  - reflexivity.
  - vm_compute. eexists. reflexivity.
Defined.

(** What [add_project_file] does for a project without a session, by the
    outcome of starting the process. *)
Lemma add_project_file_by_outcome
    (h : host) (B : GHCModBackend) (filename project project_dir : string)
    (opt_args : list string) :
  project_backends B !! project = None ->
  ghc_opts_args h filename project_dir = Ret opt_args ->
  let after := add_project_file h filename project project_dir B in
  match launch h (ghcmod_command opt_args) project_dir with
  | SpawnFails _ =>
      raised (fst after) = true
      /\ project_backends (snd after) = project_backends B
  | NotFound =>
      fst after = Ret tt
      /\ exists reason,
           project_backends (snd after) !! project =
           Some (mkClient (Some (mkProcHelper None (Some reason))) None None [])
  | Spawned p =>
      fst after = Ret tt
      /\ project_backends (snd after) !! project =
         Some (mkClient (Some (mkProcHelper (Some p) None)) (Some MkLock)
                        (Some (mkDrain ("ghc-mod " +:+ project) true)) [])
  end.
Proof.
  intros Hnone Hopts.
  unfold add_project_file, bind, super_add_project_file.
  cbn [project_backends]. rewrite Hnone, Hopts.
  unfold GHCModClient_init, ProcHelper_init.
  destruct (launch h (ghcmod_command opt_args) project_dir) as [|p|errno];
    cbn [process fst snd project_backends set_backends].
  - split; [reflexivity|]. eexists. apply lookup_insert_eq.
  - split; [reflexivity|]. apply lookup_insert_eq.
  - destruct (errno =? EPIPE)%Z; cbn [fst snd raised project_backends]; now split.
Qed.

(** C9, as the code has it.  When the session of a project is created and
    starting the process fails with [OSError], the creation attempt raises,
    once and out of [add_project_file], and no session is stored: the
    registry is as it was and has no entry for the project. *)
Theorem spawn_failure_leaves_no_session
    (h : host) (B : GHCModBackend) (filename project project_dir : string)
    (opt_args : list string) (errno : Z) :
  project_backends B !! project = None ->
  ghc_opts_args h filename project_dir = Ret opt_args ->
  launch h (ghcmod_command opt_args) project_dir = SpawnFails errno ->
  let after := add_project_file h filename project project_dir B in
  (exists e, fst after = Raise e)
  /\ project_backends (snd after) = project_backends B
  /\ project_backends (snd after) !! project = None.
Proof.
  intros Hnone Hopts Hlaunch after.
  pose proof (add_project_file_by_outcome h B filename project project_dir
                opt_args Hnone Hopts) as H.
  cbv zeta in H. rewrite Hlaunch in H. fold after in H. destruct H as [Hr Hreg].
  split; [|split].
  - destruct (fst after) as [u|e]; [discriminate | now exists e].
  - exact Hreg.
  - now rewrite Hreg.
Qed.

Lemma spawn_failure_leaves_no_session_witness :
  let h := mkHost (fun _ _ => SpawnFails 13) (fun _ _ => Ret []) (fun _ _ => Ret false) in
  let after := add_project_file h "Foo.hs" "proj" "/proj" (mkBackend ∅ ∅ []) in
  (exists e, fst after = Raise e)
  /\ project_backends (snd after) = ∅
  /\ project_backends (snd after) !! "proj" = None.
Proof.
  apply (spawn_failure_leaves_no_session
           (mkHost (fun _ _ => SpawnFails 13) (fun _ _ => Ret []) (fun _ _ => Ret false))
           (mkBackend ∅ ∅ []) "Foo.hs" "proj" "/proj" [] 13).
  - reflexivity.
  - reflexivity.
  - reflexivity.
Defined.

(** C9 as stated fails: when the executable is not found, nothing is
    raised and the registry gets an entry for the project. *)
Lemma executable_not_found_is_registered :
  let h := mkHost (fun _ _ => NotFound) (fun _ _ => Ret []) (fun _ _ => Ret false) in
  let after := add_project_file h "Foo.hs" "proj" "/proj" (mkBackend ∅ ∅ []) in
  fst after = Ret tt
  /\ project_backends (snd after) !! "proj" =
     Some (mkClient
             (Some (mkProcHelper None
                      (Some "SublimeHaskell.ProcHelper: ghc-mod was not found on PATH!")))
             None None [])
  /\ project_backends (snd after) !! "proj" <> None.
Proof. vm_compute. repeat split. discriminate. Qed.

End Registry.

Section ContentMapping.
Import Client Re Patterns Translate Backend.

(** Each session operation of the backend adds its own call to the trace,
    with its outcome, and nothing else. *)
Lemma session_call_trace (mk : bool -> call) (filename : string)
    (op : M GHCModClient reply) (B : GHCModBackend) :
  trace (snd (record_call mk (on_backend_of filename op) B)) =
  trace B ++ [mk (negb (raised (fst (record_call mk (on_backend_of filename op) B))))].
Proof.
  unfold record_call, on_backend_of, on_session.
  destruct (get_backend B filename) as [project|]; [|reflexivity].
  destruct (project_backends B !! project) as [c|]; [|reflexivity].
  now destruct (op c) as [r c'].
Qed.

Ltac run_call T r B' :=
  match goal with
  | |- context [record_call ?mk (on_backend_of ?f ?op) ?B] =>
      pose proof (session_call_trace mk f op B) as T;
      destruct (record_call mk (on_backend_of f op) B) as [r B'];
      cbn [fst snd] in T
  end.

Lemma translate_file_trace cmd contents regex xlat retval file B :
  exists new,
    trace (snd (translate_file cmd contents regex xlat retval file B)) = trace B ++ new
    /\ file_calls file
         (raised (fst (translate_file cmd contents regex xlat retval file B))) new.
Proof.
  unfold translate_file, file_calls.
  destruct contents as [texts|].
  2:{ exists []. cbn. rewrite app_nil_r. auto. }
  unfold try_finally, bind, command_backend, backend_map_file,
    backend_unmap_file, lift, ret.
  destruct (texts !! file) as [text|].
  - run_call T1 r1 B1. destruct r1 as [r1|e1]; cbv beta iota.
    + run_call T2 r2 B2. destruct r2 as [resp|e2];
        [destruct (collect _) as [records|e]|]; cbv beta iota;
        run_call T3 r3 B3; destruct r3; cbv beta iota;
        cbn [fst snd raised negb] in *;
        (eexists; split;
         [rewrite T3, T2, T1, <- !app_assoc; reflexivity | right; right; eauto]).
    + exists [Mapped file false]. cbn [fst snd raised negb] in *.
      split; [exact T1 | auto].
  - run_call T2 r2 B2. destruct r2 as [resp|e2];
      [destruct (collect _) as [records|e]|]; cbv beta iota;
      cbn [fst snd raised negb] in *;
      (eexists; split; [exact T2 | right; left; eauto]).
Qed.

Lemma file_calls_bracketed file raises new rest :
  file_calls file raises new ->
  (raises = true -> rest = []) ->
  well_bracketed rest ->
  well_bracketed (new ++ rest).
Proof.
  intros [[Hr [-> | ->]] | [(cmd & ok & ->) | (cmd & ok1 & ok2 & ->)]] Hrest Hwb.
  - exact Hwb.
  - rewrite (Hrest Hr). constructor.
  - now constructor.
  - now constructor.
Qed.

(** The calls of the whole loop are well bracketed. *)
Lemma translate_files_trace cmd contents regex xlat files :
  forall retval B,
  exists new,
    trace (snd (translate_files cmd contents regex xlat retval files B)) = trace B ++ new
    /\ well_bracketed new.
Proof.
  induction files as [|file files IH]; intros retval B.
  - exists []. cbn. rewrite app_nil_r. split; [reflexivity | constructor].
  - cbn [translate_files]. unfold bind.
    destruct (translate_file_trace cmd contents regex xlat retval file B)
      as (new1 & T1 & Hc).
    destruct (translate_file cmd contents regex xlat retval file B) as [r1 B1].
    cbn [fst snd] in *. destruct r1 as [retval'|e]; cbn [raised] in Hc.
    + destruct (IH retval' B1) as (new2 & T2 & Hwb).
      exists (new1 ++ new2). split.
      * now rewrite T2, T1, <- app_assoc.
      * apply (file_calls_bracketed file false); [exact Hc | discriminate | exact Hwb].
    + exists new1. cbn [snd]. split; [exact T1|].
      rewrite <- (app_nil_r new1).
      apply (file_calls_bracketed file true); [exact Hc | reflexivity | constructor].
Qed.

Lemma well_bracketed_unmaps new :
  well_bracketed new ->
  forall pre file post,
    new = pre ++ Mapped file true :: post ->
    exists cmd ok1 ok2 post',
      post = Commanded file cmd ok1 :: Unmapped file ok2 :: post'.
Proof.
  induction 1 as [|f c ok rest Hwb IH|f c ok1 ok2 rest Hwb IH|f];
    intros pre file post E.
  - now destruct pre.
  - destruct pre as [|x pre]; [discriminate|].
    injection E as _ E. eauto.
  - destruct pre as [|x [|y [|z pre]]]; try discriminate.
    + injection E as <- <-. eauto.
    + injection E as _ _ _ E. eauto.
  - destruct pre as [|x [|y pre]]; discriminate.
Qed.

(** C8.  In the calls of a run of [translate_regex_output], whatever the
    sessions do, every mapping of a file's contents that returned is
    followed by the analysis command for that file and then by the
    unmapping of that file, whether the command returned (with a reply, an
    empty or a failure reply) or raised. *)
Theorem unmap_follows_map
    (cmd : string) (files : option (list string))
    (contents : option (gmap string string)) (regex : Re.regex)
    (xlat : option string -> match_object -> result diagnostic)
    (B : GHCModBackend) (pre : list call) (file : string) (post : list call) :
  trace (snd (translate_regex_output cmd files contents regex xlat B)) =
    trace B ++ pre ++ Mapped file true :: post ->
  exists cmdline ok1 ok2 post',
    post = Commanded file cmdline ok1 :: Unmapped file ok2 :: post'.
Proof.
  unfold translate_regex_output. destruct files as [fs|].
  - destruct (translate_files_trace cmd contents regex xlat fs [] B)
      as (new & T & Hwb).
    rewrite T. intros E. apply app_inv_head in E.
    exact (well_bracketed_unmaps new Hwb pre file post E).
  - cbn. intros E. rewrite <- (app_nil_r (trace B)) in E at 1.
    apply app_inv_head in E. now destruct pre.
Qed.

Lemma unmap_follows_map_witness :
  trace (snd (check (Some ["Foo.hs"]) (Some {[ "Foo.hs" := "main = print 1" ]})
                    broken_pipe_backend)) =
    [Mapped "Foo.hs" true; Commanded "Foo.hs" "check  Foo.hs" false;
     Unmapped "Foo.hs" false]
  /\ exists cmdline ok1 ok2 post',
       [Commanded "Foo.hs" "check  Foo.hs" false; Unmapped "Foo.hs" false] =
       Commanded "Foo.hs" cmdline ok1 :: Unmapped "Foo.hs" ok2 :: post'.
Proof.
  split.
  - vm_compute. reflexivity.
  - apply (unmap_follows_map "check " (Some ["Foo.hs"])
             (Some {[ "Foo.hs" := "main = print 1" ]})
             GHC_CHECK_REGEX translate_check broken_pipe_backend
             [] "Foo.hs"
             [Commanded "Foo.hs" "check  Foo.hs" false; Unmapped "Foo.hs" false]).
    vm_compute. reflexivity.
Defined.

(** The scenario of C7 through the whole operation: [check] on a file of
    a project whose session answers with the one line. *)
Example check_operation_scenario :
  let session :=
    Wire.live_client
      (mkPopen [] []
         [Wire.reply_line (Wire.Normal, "Foo.hs:3:7: Warning: x shadows y");
          Wire.terminator])
      None None [] in
  let B := mkBackend {[ "Foo.hs" := ("proj", "/proj") ]} {[ "proj" := session ]} [] in
  fst (check (Some ["Foo.hs"]) (Some ∅) B) =
  Ret [mkDiagnostic "warning"
         (mkNote (Some "x shadows y") None)
         (mkRegion (mkPosition 1 3) (mkPosition 7 3))
         (mkSource "/proj/Foo.hs" None)].
Proof. vm_compute. reflexivity. Qed.

End ContentMapping.

Section Framed.
Import Client Wire Framing.

Lemma read_loop_off_channel line rest out err :
  off_channel line ->
  read_loop (Line line :: rest) out err =
  mkLoopEnd false out err [complaint line] rest.
Proof.
  intros (Hne & HO & HX). rewrite read_loop_line. unfold complaint.
  apply str_eqb_neq in Hne, HO, HX. rewrite Hne, HO, HX.
  now destruct (str_eqb (take 3 line) "NG ").
Qed.

(** X1. [GHCModClient.read_response] also ends a reply at the first line
    that is not empty and starts with neither channel marker (an [NG] line or
    any other text): it returns the channel lines read before it, leaves the
    rest of the stream unread, keeps the session, and writes one complaint to
    the console, [Error response: ] for an [NG] line and
    [Unexpected reply from ghc-mod client: ] otherwise, followed by the line
    without its first three characters and trailing white space. *)
Theorem read_response_stops_at_off_channel_line
    (p : Popen) (perr : option string) (lk : option Lock)
    (d : option DescriptorDrain) (out : list string)
    (es : list entry) (line : string) (rest : list read_event) :
  stdout_pending p = map reply_line es ++ Line line :: rest ->
  Forall not_terminator es ->
  off_channel line ->
  read_response (mkClient (Some (mkProcHelper (Some p) perr)) lk d out) =
  (Ret (channel_lines Normal (map strip_entry es),
        channel_lines Error (map strip_entry es)),
   mkClient (Some (mkProcHelper
                     (Some (mkPopen (stdin_sent p) (stdin_faults p) rest)) perr))
            lk d (out ++ [complaint line])).
Proof.
  intros Hp Hnt Hoff. rewrite read_response_with_process, Hp.
  rewrite read_loop_entries by exact Hnt.
  rewrite read_loop_off_channel by exact Hoff. reflexivity.
Qed.

Lemma read_response_stops_at_off_channel_line_witness :
  read_response
    (live_client
       (mkPopen [] []
          [reply_line (Normal, "Foo.hs:1:1: oops");
           Line ("NG no such command" +:+ newline);
           reply_line (Normal, "late")])
       None None []) =
  (Ret (["Foo.hs:1:1: oops"], []),
   live_client (mkPopen [] [] [reply_line (Normal, "late")]) None None
               ["Error response: no such command"]).
Proof.
  apply (read_response_stops_at_off_channel_line
           (mkPopen [] []
              [reply_line (Normal, "Foo.hs:1:1: oops");
               Line ("NG no such command" +:+ newline);
               reply_line (Normal, "late")])
           None (Some MkLock) None []
           [(Normal, "Foo.hs:1:1: oops")]
           ("NG no such command" +:+ newline)
           [reply_line (Normal, "late")]).
  - reflexivity.
  - repeat constructor; simpl; discriminate.
  - repeat split; discriminate.
Defined.

Ltac run_pipe :=
  unfold run, command_backend, map_file, unmap_file, with_action_lock,
    try_except_OSError, bind, print_stdin, stdin_write, stdin_flush,
    on_process, set_process, pipe_op, ret, live_client,
    write_fails, pipe_ops, chunks in *;
  cbn [ghcmod process process_err action_lock stderr_drain console
       stdin_sent stdin_faults stdout_pending firstn skipn existsb] in *.

(** With a working pipe an operation writes its pieces and reads a reply. *)
Lemma run_writes_then_reads op p perr d out :
  write_fails (pipe_ops op) p = false ->
  run op (live_client p perr d out) =
  read_response
    (live_client (mkPopen (stdin_sent p ++ chunks op)
                          (skipn (pipe_ops op) (stdin_faults p))
                          (stdout_pending p)) perr d out).
Proof.
  destruct p as [sent faults pending]. intros Hw.
  destruct op; run_pipe;
    destruct faults as [|[] [|[] [|[] [|[] [|[] fs]]]]];
    cbn [firstn skipn existsb orb] in *; try discriminate Hw;
    cbn [ghcmod process process_err action_lock stderr_drain console
         stdin_sent stdin_faults stdout_pending];
    rewrite <- ?app_assoc; cbn [app];
    rewrite !read_response_with_process; reflexivity.
Qed.

(** With a pipe that breaks an operation shuts the session down. *)
Lemma run_write_failure op p perr d out :
  write_fails (pipe_ops op) p = true ->
  run op (live_client p perr d out) = (Ret ([], []), mkClient None None None out).
Proof.
  destruct p as [sent faults pending]. intros Hw.
  destruct op; run_pipe;
    destruct faults as [|[] [|[] [|[] [|[] [|[] fs]]]]];
    cbn [firstn skipn existsb orb] in *; try discriminate Hw;
    cbn [ghcmod process process_err action_lock stderr_drain console
         stdin_sent stdin_faults stdout_pending];
    now rewrite on_oserror_with_process.
Qed.

Lemma concat_cons_empty (x : string) (l : list string) :
  String.concat "" (x :: l) = x +:+ String.concat "" l.
Proof. destruct l; [now rewrite app_empty_r | reflexivity]. Qed.

Lemma concat_app_empty (l1 l2 : list string) :
  String.concat "" (l1 ++ l2) = String.concat "" l1 +:+ String.concat "" l2.
Proof.
  induction l1 as [|x l1 IH]; [reflexivity|].
  change ((x :: l1) ++ l2) with (x :: (l1 ++ l2)).
  now rewrite !concat_cons_empty, IH, app_assoc_str.
Qed.

Lemma chunks_wire_text op : String.concat "" (chunks op) = wire_text op.
Proof.
  destruct op; unfold chunks, wire_text; rewrite !concat_cons_empty;
    cbn [String.concat]; now rewrite ?app_empty_r, ?app_assoc_str.
Qed.

(** X2. On a session with a process, a lock and its drain, none of the
    three operations ([command_backend], [map_file], [unmap_file]) raises,
    whatever the pipes do: each returns a pair of channels and leaves the
    session either shut down or alive with its lock and drain. *)
Theorem operations_never_raise
    (op : operation) (p : Popen) (perr : option string)
    (d : option DescriptorDrain) (out : list string) :
  exists r c',
    run op (live_client p perr d out) = (Ret r, c')
    /\ (is_dead c' = true \/ exists p' out', c' = live_client p' perr d out').
Proof.
  destruct (write_fails (pipe_ops op) p) eqn:Hw.
  - rewrite run_write_failure by exact Hw. eauto.
  - rewrite run_writes_then_reads by exact Hw. unfold live_client.
    rewrite read_response_with_process. cbv zeta.
    destruct (le_oserror _); eauto 7.
Qed.

(** X3. When none of its writes fails and the stream holds a complete
    reply (channel lines, none of them [O: OK] once trailing white space is
    removed, and then the line [O: OK]), an operation sends exactly its wire
    text (the command and a line end; for [map_file] the header line, the
    contents and the end-of-text line), returns the reply's two channels, each
    line without its prefix and trailing white space, consumes the stream up
    to and including the terminator, and leaves the session alive with nothing
    written to the console. *)
Theorem operation_on_healthy_session
    (op : operation) (p : Popen) (perr : option string)
    (d : option DescriptorDrain) (out : list string)
    (es : list entry) (rest : list read_event) :
  write_fails (pipe_ops op) p = false ->
  stdout_pending p = map reply_line es ++ terminator :: rest ->
  Forall not_terminator es ->
  exists p',
    run op (live_client p perr d out) =
      (Ret (channel_lines Normal (map strip_entry es),
            channel_lines Error (map strip_entry es)),
       live_client p' perr d out)
    /\ sent_text p' = sent_text p +:+ wire_text op
    /\ stdout_pending p' = rest.
Proof.
  intros Hw Hp Hnt. rewrite run_writes_then_reads by exact Hw.
  unfold live_client. rewrite read_response_with_process.
  cbn [stdout_pending stdin_sent stdin_faults]. rewrite Hp.
  rewrite read_loop_entries by exact Hnt.
  rewrite read_loop_terminator. cbv zeta.
  cbn [le_stdout le_stderr le_oserror le_console le_pending].
  rewrite app_nil_r. eexists. split; [reflexivity|].
  unfold sent_text. cbn [stdin_sent stdout_pending].
  now rewrite concat_app_empty, chunks_wire_text.
Qed.

Lemma operation_on_healthy_session_witness :
  exists p',
    run (MapFile "Foo.hs" "main = print 1")
        (live_client (mkPopen [] [] [reply_line (Normal, "mapped  "); terminator])
                     None None []) =
      (Ret (["mapped"], []), live_client p' None None [])
    /\ sent_text p' =
       sent_text (mkPopen [] [] [reply_line (Normal, "mapped  "); terminator])
       +:+ wire_text (MapFile "Foo.hs" "main = print 1")
    /\ stdout_pending p' = [].
Proof.
  apply (operation_on_healthy_session
           (MapFile "Foo.hs" "main = print 1")
           (mkPopen [] [] [reply_line (Normal, "mapped  "); terminator])
           None None [] [(Normal, "mapped  ")] []).
  - reflexivity.
  - reflexivity.
  - repeat constructor; simpl; discriminate.
Defined.

Lemma write_fails_split n m sent faults pending :
  write_fails (n + m) (mkPopen sent faults pending) = false ->
  write_fails n (mkPopen sent faults pending) = false
  /\ forall sent' pending',
       write_fails m (mkPopen sent' (skipn n faults) pending') = false.
Proof.
  unfold write_fails. cbn [stdin_faults]. revert faults.
  induction n as [|n IH]; intros faults H.
  - now split.
  - destruct faults as [|b fs].
    + split; [reflexivity|]. intros _ _. now destruct m.
    + cbn [Nat.add firstn existsb skipn] in *.
      apply orb_false_iff in H as [-> H]. now apply IH in H.
Qed.

Lemma read_loop_ends_reply e rest out err :
  ends_reply e ->
  exists log, read_loop (e :: rest) out err = mkLoopEnd false out err log rest.
Proof.
  intros [-> | (line & -> & Hoff)].
  - eexists. apply read_loop_terminator.
  - eexists. now apply read_loop_off_channel.
Qed.

(** X4. Replies are read up to their end and no further: when none of
    the six calls on the input pipe fails (two writes and a flush for each
    command) and the stream holds two replies, each of channel lines none of
    which is [O: OK] once trailing white space is removed, the first ended by
    [O: OK] or by an off-channel line and the second by [O: OK], two commands
    in a row get the first and the second reply, each line without its prefix
    and trailing white space; the input pipe has then received the two
    command lines in order, and the stream is left after the second
    terminator. *)
Theorem next_command_reads_on
    (cmd1 cmd2 : string) (p : Popen) (perr : option string)
    (d : option DescriptorDrain) (out : list string)
    (es1 es2 : list entry) (e : read_event) (rest : list read_event) :
  write_fails 6 p = false ->
  stdout_pending p = map reply_line es1 ++ e :: map reply_line es2 ++ terminator :: rest ->
  Forall not_terminator es1 -> Forall not_terminator es2 ->
  ends_reply e ->
  exists c1 p2 out2,
    command_backend cmd1 (live_client p perr d out) =
      (Ret (channel_lines Normal (map strip_entry es1),
            channel_lines Error (map strip_entry es1)), c1)
    /\ command_backend cmd2 c1 =
      (Ret (channel_lines Normal (map strip_entry es2),
            channel_lines Error (map strip_entry es2)),
       live_client p2 perr d out2)
    /\ sent_text p2 = sent_text p +:+ cmd1 +:+ newline +:+ cmd2 +:+ newline
    /\ stdout_pending p2 = rest.
Proof.
  intros Hw Hp Hnt1 Hnt2 He. destruct p as [sent faults pending].
  cbn [stdout_pending] in Hp. subst pending.
  apply (write_fails_split 3 3) in Hw as [Hw1 Hw2].
  pose proof (run_writes_then_reads (Command cmd1) _ perr d out Hw1) as R1.
  cbn [run pipe_ops chunks stdin_sent stdin_faults stdout_pending] in R1.
  unfold live_client in R1 at 2. rewrite read_response_with_process in R1.
  cbn [stdout_pending stdin_sent stdin_faults] in R1.
  rewrite read_loop_entries in R1 by exact Hnt1.
  destruct (read_loop_ends_reply e (map reply_line es2 ++ terminator :: rest)
              ([] ++ channel_lines Normal (map strip_entry es1))
              ([] ++ channel_lines Error (map strip_entry es1)) He)
    as [log E1].
  rewrite E1 in R1. cbv zeta in R1.
  cbn [le_stdout le_stderr le_oserror le_console le_pending app] in R1.
  eexists _, _, _. split; [exact R1|].
  fold (live_client (mkPopen (sent ++ [cmd1; newline]) (skipn 3 faults)
                             (map reply_line es2 ++ terminator :: rest))
                    perr d (out ++ log)).
  pose proof (run_writes_then_reads (Command cmd2) _ perr d (out ++ log)
                (Hw2 (sent ++ [cmd1; newline])
                     (map reply_line es2 ++ terminator :: rest))) as R2.
  cbn [run pipe_ops chunks stdin_sent stdin_faults stdout_pending] in R2.
  rewrite R2. unfold live_client at 1. rewrite read_response_with_process.
  cbn [stdout_pending stdin_sent stdin_faults].
  rewrite read_loop_entries by exact Hnt2.
  rewrite read_loop_terminator. cbv zeta.
  cbn [le_stdout le_stderr le_oserror le_console le_pending app].
  rewrite app_nil_r. split; [reflexivity|]. split; [|reflexivity].
  unfold sent_text. cbn [stdin_sent].
  rewrite !concat_app_empty, !concat_cons_empty. cbn [String.concat].
  now rewrite !app_empty_r, !app_assoc_str.
Qed.

Lemma next_command_reads_on_witness :
  exists c1 p2 out2,
    command_backend "check A.hs"
      (live_client
         (mkPopen [] []
            [reply_line (Normal, "A.hs:1:1: first "); Line ("?? noise" +:+ newline);
             reply_line (Normal, "A.hs:2:1: second"); terminator])
         None None []) =
      (Ret (["A.hs:1:1: first"], []), c1)
    /\ command_backend "check B.hs" c1 =
      (Ret (["A.hs:2:1: second"], []), live_client p2 None None out2)
    /\ sent_text p2 =
       sent_text (mkPopen [] []
            [reply_line (Normal, "A.hs:1:1: first "); Line ("?? noise" +:+ newline);
             reply_line (Normal, "A.hs:2:1: second"); terminator])
       +:+ "check A.hs" +:+ newline +:+ "check B.hs" +:+ newline
    /\ stdout_pending p2 = [].
Proof.
  apply (next_command_reads_on "check A.hs" "check B.hs"
           (mkPopen [] []
              [reply_line (Normal, "A.hs:1:1: first "); Line ("?? noise" +:+ newline);
               reply_line (Normal, "A.hs:2:1: second"); terminator])
           None None []
           [(Normal, "A.hs:1:1: first ")] [(Normal, "A.hs:2:1: second")]
           (Line ("?? noise" +:+ newline)) []).
  - reflexivity.
  - reflexivity.
  - repeat constructor; simpl; discriminate.
  - repeat constructor; simpl; discriminate.
  - right. eexists. split; [reflexivity|]. repeat split; discriminate.
Defined.

End Framed.

Section Lifetime.
Import Client Wire Framing Backend Lifecycle.

Lemma shutdown_processless c :
  processless c -> shutdown c = (Raise AttributeError, c).
Proof. intros [perr H]. destruct c as [g lk d out]. cbn in H. now subst g. Qed.

Lemma shutdown_otherwise c :
  ~ processless c -> shutdown c = (Ret tt, mkClient None None None (console c)).
Proof.
  destruct c as [[[[p|] perr]|] lk d out]; intros H.
  - apply shutdown_with_process.
  - exfalso. apply H. now exists perr.
  - apply shutdown_without_session.
Qed.

Lemma processless_dec c : processless c \/ ~ processless c.
Proof.
  destruct c as [[[[p|] perr]|] lk d out].
  - right. intros [e H]. discriminate.
  - left. now exists perr.
  - right. intros [e H]. discriminate.
Qed.

(** X5. When the ghc-mod executable is not found, [GHCModClient]'s
    constructor still returns a client, and on that client every operation,
    [read_response] and [shutdown] raise [AttributeError] and leave the client
    unchanged. *)
Theorem client_without_process_always_raises
    (h : host) (project project_dir : string) (opt_args : list string) :
  launch h (ghcmod_command opt_args) project_dir = NotFound ->
  exists c,
    GHCModClient_init h project project_dir opt_args = Ret c
    /\ (forall op, run op c = (Raise AttributeError, c))
    /\ read_response c = (Raise AttributeError, c)
    /\ shutdown c = (Raise AttributeError, c).
Proof.
  intros H. unfold GHCModClient_init, ProcHelper_init. rewrite H.
  cbn [process]. eexists. split; [reflexivity|].
  split; [now intros []|]. split; reflexivity.
Qed.

Lemma client_without_process_always_raises_witness :
  exists c,
    GHCModClient_init
      (mkHost (fun _ _ => NotFound) (fun _ _ => Ret []) (fun _ _ => Ret false))
      "proj" "/proj" [] = Ret c
    /\ (forall op, run op c = (Raise AttributeError, c))
    /\ read_response c = (Raise AttributeError, c)
    /\ shutdown c = (Raise AttributeError, c).
Proof.
  apply (client_without_process_always_raises
           (mkHost (fun _ _ => NotFound) (fun _ _ => Ret []) (fun _ _ => Ret false))
           "proj" "/proj" []).
  reflexivity.
Defined.

Lemma shutdown_each_all_fine projects :
  forall B,
    (forall project, In project projects ->
       exists c, project_backends B !! project = Some c /\ ~ processless c) ->
    exists reg,
      shutdown_each projects B = (Ret tt, mkBackend (file_to_project B) reg (trace B)).
Proof.
  induction projects as [|k rest IH]; intros B Hall.
  - exists (project_backends B). now destruct B.
  - cbn [shutdown_each]. unfold bind at 1. unfold on_session.
    destruct (Hall k (or_introl eq_refl)) as (c & Hc & Hnp).
    rewrite Hc, (shutdown_otherwise c Hnp).
    edestruct (IH (set_backends B
                 (<[k := mkClient None None None (console c)]> (project_backends B))))
      as [reg E].
    + intros project Hin. cbn [set_backends project_backends].
      destruct (decide (k = project)) as [<-|Hne].
      * rewrite lookup_insert_eq. eexists. split; [reflexivity|].
        intros [e He]. discriminate.
      * rewrite lookup_insert_ne by exact Hne. apply Hall. now right.
    + rewrite E. now exists reg.
Qed.

(** X6. [GHCModBackend.stop_backend] on a registry in which every client
    has a process (or is already shut down) returns normally and leaves an
    empty registry; the file table and the record of calls are untouched. *)
Theorem stop_backend_clears_registry (B : GHCModBackend) (projects : list string) :
  lists_projects B projects ->
  (forall project c, project_backends B !! project = Some c -> ~ processless c) ->
  stop_backend projects B = (Ret tt, mkBackend (file_to_project B) ∅ (trace B)).
Proof.
  intros Hkeys Hfine. unfold stop_backend, bind.
  destruct (shutdown_each_all_fine projects B) as [reg E].
  - intros project Hin. apply Hkeys in Hin as [c Hc]. eauto.
  - now rewrite E.
Qed.

Lemma shutdown_each_blocked projects :
  forall B k0 c0,
    (forall project, In project projects -> is_Some (project_backends B !! project)) ->
    In k0 projects -> project_backends B !! k0 = Some c0 -> processless c0 ->
    fst (shutdown_each projects B) = Raise AttributeError
    /\ forall project,
         is_Some (project_backends (snd (shutdown_each projects B)) !! project)
         <-> is_Some (project_backends B !! project).
Proof.
  induction projects as [|k rest IH]; intros B k0 c0 Hall Hin H0 Hp0; [destruct Hin|].
  cbn [shutdown_each]. unfold bind, on_session.
  destruct (Hall k (or_introl eq_refl)) as [c Hc]. rewrite Hc.
  assert (Hdom : forall c' project,
    is_Some (<[k := c']> (project_backends B) !! project)
    <-> is_Some (project_backends B !! project)).
  { intros c' project. destruct (decide (k = project)) as [<-|Hne].
    - rewrite lookup_insert_eq, Hc. split; eauto.
    - now rewrite lookup_insert_ne. }
  destruct (processless_dec c) as [Hp|Hnp].
  - rewrite (shutdown_processless c Hp). cbn [fst snd set_backends project_backends].
    split; [reflexivity | apply Hdom].
  - rewrite (shutdown_otherwise c Hnp).
    assert (Hne : k <> k0) by (intros ->; rewrite H0 in Hc; now injection Hc as <-).
    destruct Hin as [Hin|Hin]; [contradiction|].
    edestruct (IH (set_backends B
                 (<[k := mkClient None None None (console c)]> (project_backends B)))
                 k0 c0) as [Hr Hd]; try eassumption.
    + intros project Hi. cbn [set_backends project_backends].
      apply Hdom, Hall. now right.
    + cbn [set_backends project_backends]. now rewrite lookup_insert_ne.
    + split; [exact Hr|]. intros project. rewrite Hd.
      cbn [set_backends project_backends]. apply Hdom.
Qed.

(** X7. If some registered client was created without a process,
    [stop_backend] raises [AttributeError] and the registry is not cleared: it
    has the same projects as before. *)
Theorem stop_backend_blocked_by_client_without_process
    (B : GHCModBackend) (projects : list string) (project : string) (c : GHCModClient) :
  lists_projects B projects ->
  project_backends B !! project = Some c ->
  processless c ->
  fst (stop_backend projects B) = Raise AttributeError
  /\ forall k,
       is_Some (project_backends (snd (stop_backend projects B)) !! k)
       <-> is_Some (project_backends B !! k).
Proof.
  intros Hkeys Hc Hp. unfold stop_backend, bind.
  destruct (shutdown_each_blocked projects B project c) as [Hr Hd]; try assumption.
  - intros k Hin. now apply Hkeys.
  - apply Hkeys. eauto.
  - destruct (shutdown_each projects B) as [r B']. cbn [fst snd] in *.
    subst r. cbn [fst snd]. split; [reflexivity | exact Hd].
Qed.

Lemma lists_singleton (c : GHCModClient) ftp tr :
  lists_projects (mkBackend ftp {[ "proj" := c ]} tr) ["proj"].
Proof.
  intros project. cbn [project_backends]. split.
  - intros [<-|[]]. rewrite lookup_singleton_eq. eauto.
  - intros [c' H]. apply lookup_singleton_Some in H as [<- _]. now left.
Qed.

Lemma stop_backend_clears_registry_witness :
  stop_backend ["proj"]
    (mkBackend ∅ {[ "proj" := live_client (mkPopen [] [true] []) None None [] ]} []) =
  (Ret tt, mkBackend ∅ ∅ []).
Proof.
  apply (stop_backend_clears_registry
           (mkBackend ∅ {[ "proj" := live_client (mkPopen [] [true] []) None None [] ]} [])
           ["proj"]).
  - apply lists_singleton.
  - cbn [project_backends]. intros project c H.
    apply lookup_singleton_Some in H as [_ <-]. intros [e He]. discriminate.
Defined.

Lemma stop_backend_blocked_by_client_without_process_witness :
  let B := mkBackend ∅
             {[ "proj" := mkClient (Some (mkProcHelper None (Some "not found")))
                                   None None [] ]} [] in
  fst (stop_backend ["proj"] B) = Raise AttributeError
  /\ forall k,
       is_Some (project_backends (snd (stop_backend ["proj"] B)) !! k)
       <-> is_Some (project_backends B !! k).
Proof.
  apply (stop_backend_blocked_by_client_without_process
           (mkBackend ∅
              {[ "proj" := mkClient (Some (mkProcHelper None (Some "not found")))
                                    None None [] ]} [])
           ["proj"] "proj"
           (mkClient (Some (mkProcHelper None (Some "not found"))) None None [])).
  - apply lists_singleton.
  - reflexivity.
  - now exists (Some "not found").
Defined.

(** X8. [add_project_file] never replaces or removes a session: whatever
    the outcome of the launch, every session registered before is still
    registered under its project afterwards, and no entry other than the
    given project's changes. *)
Theorem add_project_file_keeps_sessions
    (h : host) (B : GHCModBackend) (filename project project_dir : string) :
  let after := snd (add_project_file h filename project project_dir B) in
  (forall k c, project_backends B !! k = Some c ->
               project_backends after !! k = Some c)
  /\ (forall k, k <> project ->
                project_backends after !! k = project_backends B !! k).
Proof.
  unfold add_project_file, bind, super_add_project_file.
  cbn [project_backends].
  destruct (project_backends B !! project) as [c0|] eqn:E0;
    [cbn [snd project_backends]; now split|].
  destruct (ghc_opts_args h filename project_dir) as [opt_args|e];
    [|cbn [snd project_backends]; now split].
  destruct (GHCModClient_init h project project_dir opt_args) as [client|e];
    [|cbn [snd project_backends]; now split].
  cbn [snd set_backends project_backends]. split.
  - intros k c Hk. rewrite lookup_insert_ne; [exact Hk|]. intros <-. congruence.
  - intros k Hne. now rewrite lookup_insert_ne.
Qed.

End Lifetime.

Section NoSession.
Import Client Re Patterns Translate Backend.

Lemma on_backend_of_no_session mk filename op B :
  get_backend B filename = None ->
  record_call mk (on_backend_of filename op) B =
  (Ret ([], []), mkBackend (file_to_project B) (project_backends B)
                           (trace B ++ [mk true])).
Proof. intros H. unfold record_call, on_backend_of. now rewrite H. Qed.

Lemma translate_file_no_session cmd texts regex xlat retval file B :
  get_backend B file = None ->
  finditer regex "" = [] ->
  exists tr,
    translate_file cmd (Some texts) regex xlat retval file B =
    (Ret retval, mkBackend (file_to_project B) (project_backends B) tr).
Proof.
  intros Hb Hre. unfold translate_file.
  unfold try_finally, bind, command_backend, backend_map_file,
    backend_unmap_file, lift, ret.
  destruct (texts !! file) as [text|].
  - rewrite on_backend_of_no_session by exact Hb.
    rewrite on_backend_of_no_session by exact Hb.
    cbn [fst Py.join map]. rewrite Hre. cbn [map collect].
    rewrite on_backend_of_no_session by exact Hb.
    rewrite app_nil_r. eexists. reflexivity.
  - rewrite on_backend_of_no_session by exact Hb.
    cbn [fst Py.join map]. rewrite Hre. cbn [map collect].
    rewrite app_nil_r. eexists. reflexivity.
Qed.

Lemma translate_files_no_session cmd texts regex xlat files :
  finditer regex "" = [] ->
  forall retval B,
    (forall f, In f files -> get_backend B f = None) ->
    exists tr,
      translate_files cmd (Some texts) regex xlat retval files B =
      (Ret retval, mkBackend (file_to_project B) (project_backends B) tr).
Proof.
  intros Hre. induction files as [|file files IH]; intros retval B Hall.
  - exists (trace B). now destruct B.
  - cbn [translate_files]. unfold bind.
    destruct (translate_file_no_session cmd texts regex xlat retval file B
                (Hall file (or_introl eq_refl)) Hre) as [tr ->].
    apply (IH retval (mkBackend (file_to_project B) (project_backends B) tr)).
    intros f Hin. apply (Hall f (or_intror Hin)).
Qed.

(** X9. Let none of the files belong to a project with a session. Then
    [check] and [lint] leave the registry of sessions as it was, and they
    return the empty list of diagnostics when they are given a list of files
    and a dictionary of contents, or an empty list of files; they raise
    [TypeError] when [files] is [None] (its default), and when [contents] is
    [None] (its default) and there is at least one file. *)
Theorem check_and_lint_without_session
    (files : option (list string)) (contents : option (gmap string string))
    (hlint : option (list string)) (B : GHCModBackend) :
  (forall fs f, files = Some fs -> In f fs -> get_backend B f = None) ->
  let expected : result (list diagnostic) :=
    match files, contents with
    | None, _ => Raise TypeError
    | Some [], _ => Ret []
    | Some (_ :: _), None => Raise TypeError
    | Some (_ :: _), Some _ => Ret []
    end in
  (fst (check files contents B) = expected
   /\ project_backends (snd (check files contents B)) = project_backends B)
  /\ (fst (lint files contents hlint B) = expected
      /\ project_backends (snd (lint files contents hlint B)) = project_backends B).
Proof.
  intros Hall. cbv zeta. unfold check, lint, translate_regex_output.
  destruct files as [fs|]; [|now repeat split].
  specialize (Hall fs).
  assert (Hfs : forall f, In f fs -> get_backend B f = None)
    by (intros f; now apply Hall).
  destruct contents as [texts|].
  - assert (E : (match fs with [] => Ret [] | _ :: _ => Ret [] end)
                = (Ret [] : result (list diagnostic))) by now destruct fs.
    rewrite E. split.
    + destruct (translate_files_no_session "check " texts GHC_CHECK_REGEX
                  translate_check fs ltac:(vm_compute; reflexivity) [] B Hfs)
        as [tr ->]. now split.
    + destruct (translate_files_no_session
                  (Py.join " " (["lint"; "--hlintOpt"; "-u"] ++ default [] hlint))
                  texts GHC_LINT_REGEX
                  translate_lint fs ltac:(vm_compute; reflexivity) [] B Hfs)
        as [tr ->]. now split.
  - destruct fs as [|f fs]; now repeat split.
Qed.

Lemma check_and_lint_without_session_witness :
  let B := mkBackend {[ "Foo.hs" := ("proj", "/proj") ]} ∅ [] in
  (fst (check (Some ["Foo.hs"; "Bar.hs"]) (Some {[ "Foo.hs" := "x" ]}) B) = Ret []
   /\ project_backends
        (snd (check (Some ["Foo.hs"; "Bar.hs"]) (Some {[ "Foo.hs" := "x" ]}) B))
      = project_backends B)
  /\ (fst (lint (Some ["Foo.hs"; "Bar.hs"]) (Some {[ "Foo.hs" := "x" ]}) None B) = Ret []
      /\ project_backends
           (snd (lint (Some ["Foo.hs"; "Bar.hs"]) (Some {[ "Foo.hs" := "x" ]}) None B))
         = project_backends B).
Proof.
  apply (check_and_lint_without_session
           (Some ["Foo.hs"; "Bar.hs"]) (Some {[ "Foo.hs" := "x" ]})
           None (mkBackend {[ "Foo.hs" := ("proj", "/proj") ]} ∅ [])).
  intros fs f [= <-] [<-|[<-|[]]]; reflexivity.
Defined.

End NoSession.

Section Records.
Import Re Patterns Translate Grammar Shapes.

Ltac no_group := vm_compute; intuition discriminate.

Ltac split_head H w1 st1 w2 H1 :=
  apply Matches_Seq_inv in H as (w1 & st1 & w2 & -> & H1 & H).

(** The prefix captures a file name without white space. *)
Lemma prefix_file_has_no_space st w st' :
  Matches FILE_LINE_COL_REGEX st w st' ->
  exists f, caps st' !! "file" = Some f
            /\ forallb non_space (list_ascii_of_string f) = true.
Proof.
  unfold FILE_LINE_COL_REGEX, seq_of. cbn [fold_right]. intros H.
  split_head H w1 s1 w1' H1. split_head H w2 s2 w2' H2.
  split_head H w3 s3 w3' H3.
  rewrite (Matches_other_groups _ _ _ _ "file" H ltac:(no_group)).
  apply Matches_Group_inv in H3 as (E & sx & HM & _).
  exists w3. split; [exact E|]. now apply Matches_star_chr in HM.
Qed.

Lemma grammar_file_has_no_space g text m :
  In m (finditer (pattern_of g) text) ->
  exists f, group m "file" = Some f
            /\ forallb non_space (list_ascii_of_string f) = true.
Proof.
  intros Hin. apply finditer_sound in Hin as (st & w & st' & H0 & H & ->).
  unfold group.
  destruct g; cbn [pattern_of] in H;
    [unfold GHC_CHECK_REGEX in H | unfold GHC_LINT_REGEX in H];
    split_head H w1 s1 w2 H1;
    rewrite (Matches_other_groups _ _ _ _ "file" H ltac:(no_group));
    now apply prefix_file_has_no_space in H1.
Qed.

Lemma int_fold_nonneg (cs : list ascii) :
  forallb digit cs = true ->
  forall acc, (0 <= acc)%Z ->
    (0 <= fold_left (fun (a : Z) c => (10 * a + digit_value c)%Z) cs acc)%Z.
Proof.
  induction cs as [|c cs IH]; intros Hd acc Hacc; [exact Hacc|].
  cbn [forallb] in Hd. apply andb_true_iff in Hd as [Hc Hd].
  cbn [fold_left]. apply IH; [exact Hd|].
  unfold digit in Hc. unfold digit_value.
  apply andb_true_iff in Hc as [Hlo _]. apply N.leb_le in Hlo. lia.
Qed.

Lemma int_of_number_nonneg (s : string) :
  is_number s -> exists z, int (Some s) = Ret z /\ (0 <= z)%Z.
Proof.
  intros [Hne Hd]. unfold int. apply str_eqb_neq in Hne. rewrite Hne, Hd.
  eexists. split; [reflexivity|]. now apply int_fold_nonneg.
Qed.

(** X10. For every match of either grammar the translation succeeds and
    the diagnostic's region runs from column 1 to the reported column, both on
    the reported line; line and column are the non-negative numbers their
    digits denote; the record has no suggestions and no project. *)
Theorem diagnostic_region_of_match
    (g : grammar) (project_dir text : string) (m : match_object) :
  In m (finditer (pattern_of g) text) ->
  exists d l c zl zc,
    translate_of g (Some project_dir) m = Ret d
    /\ group m "line" = Some l /\ int (Some l) = Ret zl
    /\ group m "col" = Some c /\ int (Some c) = Ret zc
    /\ diag_region d = mkRegion (mkPosition 1 zl) (mkPosition zc zl)
    /\ (0 <= zl)%Z /\ (0 <= zc)%Z
    /\ suggestions (diag_note d) = None
    /\ project (diag_source d) = None.
Proof.
  intros Hin. apply grammar_match_groups in Hin.
  destruct Hin as ((f & Hf) & (l & Hl & Nl) & (c & Hc & Nc) & _).
  apply int_of_number_nonneg in Nl as (zl & El & Pl).
  apply int_of_number_nonneg in Nc as (zc & Ec & Pc).
  destruct g; unfold translate_of, translate_check, translate_lint;
    rewrite Hl, Hc, Hf, El, Ec; cbn [bind_result reconcile];
    destruct (PosixPath.isabs f); cbn [negb bind_result];
    eexists _, l, c, zl, zc; repeat (split; [reflexivity || assumption|]);
    reflexivity.
Qed.

Lemma diagnostic_region_of_match_witness :
  exists d l c zl zc,
    translate_lint (Some "/proj")
      (hd ∅ (finditer GHC_LINT_REGEX
               ("Foo.hs:10:4: Eta reduce" +:+ String LF "Found: f x"))) = Ret d
    /\ group (hd ∅ (finditer GHC_LINT_REGEX
               ("Foo.hs:10:4: Eta reduce" +:+ String LF "Found: f x"))) "line" = Some l
    /\ int (Some l) = Ret zl
    /\ group (hd ∅ (finditer GHC_LINT_REGEX
               ("Foo.hs:10:4: Eta reduce" +:+ String LF "Found: f x"))) "col" = Some c
    /\ int (Some c) = Ret zc
    /\ diag_region d = mkRegion (mkPosition 1 zl) (mkPosition zc zl)
    /\ (0 <= zl)%Z /\ (0 <= zc)%Z
    /\ suggestions (diag_note d) = None
    /\ project (diag_source d) = None.
Proof.
  apply (diagnostic_region_of_match LintGrammar "/proj"
           ("Foo.hs:10:4: Eta reduce" +:+ String LF "Found: f x")).
  vm_compute. left. reflexivity.
Defined.

(** X11. The file a match of either grammar reports contains no white
    space. *)
Theorem reported_file_has_no_white_space
    (g : grammar) (text : string) (m : match_object) :
  In m (finditer (pattern_of g) text) ->
  exists f, group m "file" = Some f
            /\ forallb (fun c => negb (is_space c)) (list_ascii_of_string f) = true.
Proof. apply grammar_file_has_no_space. Qed.

(** Where a match [finditer] reports starts: at the rest of the text
    after some prefix. *)
Lemma finditer_sound_within r s m :
  In m (finditer r s) ->
  exists pre st w st',
    s = pre +:+ rest st /\ caps st = ∅ /\ Matches r st w st' /\ m = caps st'.
Proof.
  unfold finditer. generalize 0 at 1. generalize (@None ascii).
  induction s as [|c t IH]; intros before skip Hin.
  - destruct skip; [|contradiction]. cbn [scan] in Hin.
    destruct (exec r (mkState before "" ∅) Some) as [st'|] eqn:E;
      [|contradiction].
    destruct Hin as [<-|[]].
    apply exec_sound in E as (w & st2 & HM & [= ->]).
    now exists "", (mkState before "" ∅), w, st'.
  - assert (Hlater : forall sk b, In m (scan r sk b t) ->
      exists pre st w st',
        String c t = pre +:+ rest st /\ caps st = ∅
        /\ Matches r st w st' /\ m = caps st').
    { intros sk b Hi. apply IH in Hi as (pre & st & w & st' & -> & H).
      now exists (String c pre), st, w, st'. }
    destruct skip as [|skip]; cbn [scan] in Hin; [|now apply Hlater in Hin].
    destruct (exec r (mkState before (String c t) ∅) Some) as [st'|] eqn:E.
    + destruct Hin as [<-|Hin]; [|now apply Hlater in Hin].
      apply exec_sound in E as (w & st2 & HM & [= ->]).
      now exists "", (mkState before (String c t) ∅), w, st'.
    + now apply Hlater in Hin.
Qed.

Lemma has_char_app x a b :
  has_char x (a +:+ b) = has_char x a || has_char x b.
Proof.
  unfold has_char. induction a as [|c a IH]; [reflexivity|].
  rewrite app_cons. cbn [list_ascii_of_string existsb]. now rewrite IH, orb_assoc.
Qed.

Lemma has_line_feed_app a b :
  has_line_feed (a +:+ b) = has_line_feed a || has_line_feed b.
Proof. apply has_char_app. Qed.

(** What the tail of the lint grammar matches: a message within one line
    and details that begin with a line feed. *)
Lemma lint_tail_shape st w st' :
  Matches (Seq (Group "msg" (Seq (Star (Chr dot)) LineEnd))
               (Group "details"
                  (plus (Group "8"
                           (Seq (Chr (Ascii.eqb LF))
                                (Group "9" (Seq (Star (Chr dot)) LineEnd)))))))
          st w st' ->
  exists msg tail,
    w = msg +:+ String LF tail
    /\ caps st' !! "msg" = Some msg
    /\ caps st' !! "details" = Some (String LF tail)
    /\ has_line_feed msg = false.
Proof.
  intros H. split_head H w1 s1 w2 H1.
  pose proof (Matches_other_groups _ _ _ _ "msg" H ltac:(no_group)) as Emsg.
  apply Matches_Group_inv in H1 as (E1 & sx & HM1 & _).
  apply Matches_Group_inv in H as (E2 & sy & HM2 & _).
  unfold plus in HM2. split_head HM2 v1 t1 v2 G1.
  apply Matches_Group_inv in G1 as (_ & sz & G1 & _).
  split_head G1 u1 r1 u2 C1.
  apply Matches_Chr_inv in C1 as (c & -> & Hc & _).
  apply Ascii.eqb_eq in Hc as <-.
  split_head HM1 m1 q1 m2 S1.
  inversion HM1; subst. apply Matches_star_chr in S1.
  rewrite app_empty_r in *.
  exists m1, (u2 +:+ v2). rewrite Emsg.
  rewrite app_cons, app_empty_l, app_cons in E2 |- *.
  repeat split; try assumption.
  unfold has_line_feed, has_char. clear -S1.
  induction (list_ascii_of_string m1) as [|c cs IH]; [reflexivity|].
  cbn [forallb existsb] in *. apply andb_true_iff in S1 as [Hc Hcs].
  unfold dot in Hc. apply negb_true_iff in Hc.
  rewrite Ascii.eqb_sym, Hc. now apply IH.
Qed.

(** X12. The lint grammar matches only in a text with a line feed, and
    the diagnostic of a match has level [hint] and, as its message, the rest
    of the first line followed by the detail lines, each on its own line. *)
Theorem lint_record_of_match
    (project_dir text : string) (m : match_object) :
  In m (finditer GHC_LINT_REGEX text) ->
  has_line_feed text = true
  /\ exists d msg tail,
       translate_lint (Some project_dir) m = Ret d
       /\ level d = "hint"
       /\ group m "msg" = Some msg
       /\ group m "details" = Some (String LF tail)
       /\ has_line_feed msg = false
       /\ message (diag_note d) = Some (msg +:+ String LF tail).
Proof.
  intros Hin.
  pose proof (lint_match_groups text m Hin) as [Hp _].
  destruct Hp as ((f & Hf) & (l & Hl & Nl) & (c & Hc & Nc) & _).
  apply int_of_number in Nl as [zl El]. apply int_of_number in Nc as [zc Ec].
  apply finditer_sound_within in Hin as (pre & st & w & st' & Ht & H0 & H & ->).
  unfold GHC_LINT_REGEX in H. split_head H w1 s1 w2 H1.
  pose proof (Matches_rest _ _ _ _ H1) as R1.
  pose proof (Matches_rest _ _ _ _ H) as R2.
  apply lint_tail_shape in H as (msg & tail & -> & Emsg & Edet & Hmsg).
  split.
  - rewrite Ht, R1, R2, !has_line_feed_app.
    replace (has_line_feed (msg +:+ String LF tail)) with true;
      [now rewrite !orb_true_r|].
    rewrite has_line_feed_app. unfold has_line_feed at 2. unfold has_char.
    cbn [list_ascii_of_string existsb]. rewrite Ascii.eqb_refl.
    now rewrite orb_true_r.
  - unfold translate_lint, group in *. rewrite Hl, Hc, Hf, El, Ec, Emsg, Edet.
    cbn [bind_result reconcile format_group].
    destruct (PosixPath.isabs f); cbn [negb bind_result];
      (eexists _, msg, tail; repeat (split; [reflexivity || assumption|]); reflexivity).
Qed.

Lemma lint_record_of_match_witness :
  has_line_feed ("Foo.hs:10:1: Eta reduce" +:+ String LF "Found: f x") = true
  /\ exists d msg tail,
       translate_lint (Some "/proj")
         (hd ∅ (finditer GHC_LINT_REGEX
                  ("Foo.hs:10:1: Eta reduce" +:+ String LF "Found: f x"))) = Ret d
       /\ level d = "hint"
       /\ group (hd ∅ (finditer GHC_LINT_REGEX
                  ("Foo.hs:10:1: Eta reduce" +:+ String LF "Found: f x"))) "msg"
          = Some msg
       /\ group (hd ∅ (finditer GHC_LINT_REGEX
                  ("Foo.hs:10:1: Eta reduce" +:+ String LF "Found: f x"))) "details"
          = Some (String LF tail)
       /\ has_line_feed msg = false
       /\ message (diag_note d) = Some (msg +:+ String LF tail).
Proof.
  apply (lint_record_of_match "/proj"
           ("Foo.hs:10:1: Eta reduce" +:+ String LF "Found: f x")).
  vm_compute. left. reflexivity.
Defined.

Lemma reported_file_has_no_white_space_witness :
  exists f,
    group (hd ∅ (finditer GHC_CHECK_REGEX "Foo.hs:3:7: Warning: x")) "file" = Some f
    /\ forallb (fun c => negb (is_space c)) (list_ascii_of_string f) = true.
Proof.
  apply (reported_file_has_no_white_space CheckGrammar "Foo.hs:3:7: Warning: x").
  vm_compute. left. reflexivity.
Defined.

End Records.

Section Symbols.
Import Client Re Patterns Backend Shapes.

Lemma prefix_length (a b : string) :
  String.prefix a b = true -> String.length a <= String.length b.
Proof.
  revert b. induction a as [|x a IH]; intros b H; [cbn; lia|].
  destruct b as [|y b]; [discriminate|]. cbn in H.
  destruct (ascii_dec x y); [|discriminate]. apply IH in H. cbn. lia.
Qed.

Lemma contains_length (a b : string) :
  contains a b = true -> String.length a <= String.length b.
Proof.
  induction b as [|y b IH]; cbn [contains]; intros H.
  - rewrite orb_false_r in H. now apply prefix_length in H.
  - apply orb_true_iff in H as [H|H].
    + now apply prefix_length in H.
    + apply IH in H. cbn. lia.
Qed.

Lemma length_rev_app (a b : string) :
  String.length (String.rev_app a b) = String.length a + String.length b.
Proof.
  revert b. induction a as [|x a IH]; intros b; [reflexivity|].
  cbn [String.rev_app]. rewrite IH. cbn. lia.
Qed.

Lemma length_rev (a : string) : String.length (String.rev a) = String.length a.
Proof. unfold String.rev. rewrite length_rev_app. cbn. lia. Qed.

(** A single character matches no lookup of two or more characters. *)
Lemma lookup_match_one_character h c lookup search_type :
  search_type <> "regex" ->
  2 <= String.length lookup ->
  lookup_match h (String c "") lookup search_type = Ret false.
Proof.
  intros Hre Hlen. unfold lookup_match.
  assert (E1 : str_eqb (String c "") lookup = false).
  { apply str_eqb_neq. intros <-. cbn in Hlen. lia. }
  assert (E2 : startswith (String c "") lookup = false).
  { unfold startswith. destruct (String.prefix _ _) eqn:E; [|reflexivity].
    apply prefix_length in E. cbn in E. lia. }
  assert (E3 : endswith (String c "") lookup = false).
  { unfold endswith. destruct (String.prefix _ _) eqn:E; [|reflexivity].
    apply prefix_length in E. rewrite !length_rev in E. cbn in E. lia. }
  assert (E4 : contains lookup (String c "") = false).
  { destruct (contains _ _) eqn:E; [|reflexivity].
    apply contains_length in E. cbn in E. lia. }
  rewrite E1, E2, E3, E4, !andb_false_r.
  apply str_eqb_neq in Hre. now rewrite Hre.
Qed.

Lemma char_at_1 (m : string) :
  2 <= String.length m -> exists c, char_at m 1 = Ret (String c "").
Proof.
  destruct m as [|x [|y m]]; cbn; try lia. intros _. now exists y.
Qed.

(** X13. [scope_modules] compares the second character of each reply
    line, not the module name, with the text looked up: for a search type
    other than [regex] and a text of two or more characters, no line of two or
    more characters passes the filter, so the result is empty. *)
Theorem scope_filter_tests_second_character
    (h : host) (lookup search_type : string) (modules : list string) :
  search_type <> "regex" ->
  2 <= String.length lookup ->
  Forall (fun m => 2 <= String.length m) modules ->
  filtered_mods h lookup search_type modules = Ret [].
Proof.
  intros Hre Hlen Hall. induction Hall as [|m modules Hm _ IH]; [reflexivity|].
  cbn [filtered_mods]. destruct (char_at_1 m Hm) as [c ->].
  cbn [Translate.bind_result].
  rewrite lookup_match_one_character by assumption.
  cbn [Translate.bind_result]. exact IH.
Qed.

Lemma scope_filter_tests_second_character_witness :
  filtered_mods
    (mkHost (fun _ _ => NotFound) (fun _ _ => Ret []) (fun _ _ => Ret false))
    "Data" "prefix" ["base-4.9 Data.List"; "containers-0.5 Data.Map"] = Ret [].
Proof.
  apply (scope_filter_tests_second_character
           (mkHost (fun _ _ => NotFound) (fun _ _ => Ret []) (fun _ _ => Ret false))
           "Data" "prefix" ["base-4.9 Data.List"; "containers-0.5 Data.Map"]).
  - discriminate.
  - cbn. lia.
  - repeat constructor; cbn; lia.
Defined.

Lemma char_at_1_short (m : string) :
  String.length m < 2 -> char_at m 1 = Raise IndexError.
Proof. destruct m as [|x [|y m]]; cbn; try lia; reflexivity. Qed.

Lemma lookup_match_no_regex h elt lookup search_type :
  search_type <> "regex" ->
  exists b, lookup_match h elt lookup search_type = Ret b.
Proof.
  intros Hre. apply str_eqb_neq in Hre. unfold lookup_match. rewrite Hre.
  repeat match goal with
         | |- context [if ?b then _ else _] => destruct b
         end; eauto.
Qed.

Lemma item_outcome {A : Type} (l : list A) (i : nat) :
  (exists a, item l i = Ret a) \/ item l i = Raise IndexError.
Proof. unfold item. destruct (nth_error l i); eauto. Qed.

(** X14. For a search type other than [regex], a reply line of fewer than
    two characters makes the filter of [scope_modules] raise [IndexError]. *)
Theorem scope_filter_short_line_raises
    (h : host) (lookup search_type : string) (modules : list string) (m : string) :
  search_type <> "regex" ->
  In m modules ->
  String.length m < 2 ->
  filtered_mods h lookup search_type modules = Raise IndexError.
Proof.
  intros Hre Hin Hm. induction modules as [|m0 modules IH]; [destruct Hin|].
  cbn [filtered_mods].
  destruct (Nat.lt_ge_cases (String.length m0) 2) as [Hs|Hl].
  - now rewrite char_at_1_short.
  - destruct Hin as [->|Hin]; [lia|]. specialize (IH Hin).
    destruct (char_at_1 m0 Hl) as [c ->]. cbn [Translate.bind_result].
    destruct (lookup_match_no_regex h (String c "") lookup search_type Hre) as [b ->].
    cbn [Translate.bind_result]. destruct b; [|exact IH].
    destruct (item_outcome (split_words m0) 1) as [[name ->]| ->]; [|reflexivity].
    cbn [Translate.bind_result].
    destruct (item_outcome (split_words m0) 0) as [[pkg ->]| ->]; [|reflexivity].
    cbn [Translate.bind_result]. now rewrite IH.
Qed.

Lemma scope_filter_short_line_raises_witness :
  filtered_mods
    (mkHost (fun _ _ => NotFound) (fun _ _ => Ret []) (fun _ _ => Ret false))
    "" "prefix" ["base-4.9 Data.List"; ""] = Raise IndexError.
Proof.
  apply (scope_filter_short_line_raises
           (mkHost (fun _ _ => NotFound) (fun _ _ => Ret []) (fun _ _ => Ret false))
           "" "prefix" ["base-4.9 Data.List"; ""] "").
  - discriminate.
  - right. left. reflexivity.
  - cbn. lia.
Defined.

Ltac cut_head H w1 st1 w2 H1 :=
  apply Matches_Seq_inv in H as (w1 & st1 & w2 & -> & H1 & H).

(** A dotted name has a dot. *)
Lemma dotted_name_has_dot (s : string) :
  is_Some (re_match DOTTED_NAME s) -> has_char "." s = true.
Proof.
  unfold re_match. intros [m H].
  destruct (exec DOTTED_NAME (mkState None s ∅) Some) as [st'|] eqn:E;
    [|discriminate].
  apply exec_sound in E as (w & st2 & HM & _).
  pose proof (Matches_rest _ _ _ _ HM) as R. cbn [rest] in R.
  unfold DOTTED_NAME, plus in HM.
  cut_head HM w1 s1 w2 H1. cut_head HM v1 t1 v2 G1.
  apply Matches_Group_inv in G1 as (_ & sz & G1 & _).
  cut_head G1 u1 r1 u2 L1. apply Matches_lit_inv in L1 as [-> _].
  rewrite R, !has_char_app. cbn. now rewrite !orb_true_r.
Qed.

(** X15. [module] asks ghc-mod nothing and returns the empty list, with
    the backend unchanged, unless the search type is [exact] and the text
    looked up contains a dot. *)
Theorem module_needs_exact_dotted_lookup
    (project_name lookup search_type : string) (B : GHCModBackend) :
  search_type <> "exact" \/ has_char "." lookup = false ->
  module project_name lookup search_type B = (Ret [], B).
Proof.
  intros H. unfold module.
  destruct (str_eqb search_type "exact") eqn:Es; [|reflexivity].
  destruct H as [H|H]; [now apply str_eqb_eq in Es|].
  rewrite bool_decide_eq_false_2; [reflexivity|].
  intros Hd. apply dotted_name_has_dot in Hd. congruence.
Qed.

Lemma module_needs_exact_dotted_lookup_witness :
  module "proj" "Prelude" "exact"
    (mkBackend ∅ {[ "proj" := Wire.live_client (mkPopen [] [] []) None None [] ]} []) =
  (Ret [],
   mkBackend ∅ {[ "proj" := Wire.live_client (mkPopen [] [] []) None None [] ]} []).
Proof.
  apply (module_needs_exact_dotted_lookup "proj" "Prelude" "exact"
           (mkBackend ∅
              {[ "proj" := Wire.live_client (mkPopen [] [] []) None None [] ]} [])).
  right. reflexivity.
Defined.

Lemma split_from_no_separator sep s :
  contains sep s = false ->
  forall cur, split_from sep 0 cur s = [cur +:+ s].
Proof.
  induction s as [|c t IH]; intros H cur.
  - cbn. now rewrite app_empty_r.
  - cbn [contains] in H. apply orb_false_iff in H as [Hp Ht].
    cbn [split_from]. rewrite Hp, (IH Ht).
    now rewrite app_assoc_str, app_cons, app_empty_l.
Qed.

(** X16. A [browse] reply line without the separator [ :: ] makes the
    loop of [module] raise [ValueError]. *)
Theorem module_decls_needs_separator
    (modinfo : list string) (moddecls : gmap string declaration) (mdecl : string) :
  In mdecl modinfo ->
  contains " :: " mdecl = false ->
  module_decls modinfo moddecls = Raise ValueError.
Proof.
  intros Hin Hno. revert moddecls.
  induction modinfo as [|m0 modinfo IH]; intros moddecls; [destruct Hin|].
  cbn [module_decls]. destruct Hin as [->|Hin].
  - unfold split_on. rewrite split_from_no_separator by exact Hno. reflexivity.
  - destruct (split_on " :: " m0) as [|a [|b [|c l]]]; try reflexivity.
    now apply IH.
Qed.

Lemma module_decls_needs_separator_witness :
  module_decls ["foldr :: (a -> b -> b) -> b -> [a] -> b"; "class Eq a"] ∅ =
  Raise ValueError.
Proof.
  apply (module_decls_needs_separator
           ["foldr :: (a -> b -> b) -> b -> [a] -> b"; "class Eq a"] ∅ "class Eq a").
  - right. left. reflexivity.
  - reflexivity.
Defined.

Lemma split_from_step sep cur c t :
  split_from sep 0 cur (String c t) =
  if String.prefix sep (String c t)
  then cur :: split_from sep (pred (String.length sep)) "" t
  else split_from sep 0 (cur +:+ String c "") t.
Proof. reflexivity. Qed.

Lemma prefix_app (a b : string) : String.prefix a (a +:+ b) = true.
Proof.
  induction a as [|x a IH]; [now destruct b|].
  rewrite app_cons. cbn [String.prefix].
  destruct (ascii_dec x x) as [_|n]; [exact IH | now elim n].
Qed.

Lemma prefix_other_head x a c b :
  x <> c -> String.prefix (String x a) (String c b) = false.
Proof. intros H. cbn [String.prefix]. now destruct (ascii_dec x c). Qed.

Lemma split_from_token name :
  forallb non_space (list_ascii_of_string name) = true ->
  forall cur declinfo,
    contains " :: " declinfo = false ->
    split_from " :: " 0 cur (name +:+ " :: " +:+ declinfo) =
    [cur +:+ name; declinfo].
Proof.
  induction name as [|c name IH]; intros Hname cur declinfo Hd.
  - rewrite app_empty_l, app_empty_r.
    pose proof (prefix_app " :: " declinfo) as Hp.
    change (" :: " +:+ declinfo)
      with (String " " (String ":" (String ":" (String " " declinfo)))) in *.
    rewrite split_from_step, Hp.
    change (split_from " :: " (pred (String.length " :: ")) ""
              (String ":" (String ":" (String " " declinfo))))
      with (split_from " :: " 0 "" declinfo).
    now rewrite (split_from_no_separator _ _ Hd).
  - cbn [list_ascii_of_string forallb] in Hname.
    apply andb_true_iff in Hname as [Hc Hname].
    rewrite app_cons, split_from_step, prefix_other_head.
    + rewrite (IH Hname _ _ Hd). now rewrite app_assoc_str, app_cons, app_empty_l.
    + intros <-. discriminate.
Qed.

(** X17. For [browse] reply lines of the form name, separator,
    description, with names free of white space and descriptions free of the
    separator, the loop of [module] succeeds and stores for each name, later
    lines overwriting earlier ones, the declaration its description starts
    with: [class], [data], [newtype], or a function with the description as
    its type. *)
Theorem module_decls_of_browse_lines
    (decls : list (string * string)) (moddecls : gmap string declaration) :
  Forall (fun d => forallb non_space (list_ascii_of_string (fst d)) = true
                   /\ contains " :: " (snd d) = false) decls ->
  module_decls (map (fun d => fst d +:+ " :: " +:+ snd d) decls) moddecls =
  Ret (fold_left (fun acc d => <[fst d := declaration_of (fst d) (snd d)]> acc)
                 decls moddecls).
Proof.
  intros Hall. revert moddecls.
  induction Hall as [|[name declinfo] decls [Hn Hd] _ IH]; intros moddecls;
    [reflexivity|].
  cbn [map fst snd module_decls fold_left] in *. unfold split_on.
  rewrite (split_from_token name Hn "" declinfo Hd), app_empty_l.
  apply IH.
Qed.

Lemma module_decls_of_browse_lines_witness :
  module_decls ["foldr :: (a -> b -> b) -> b -> [a] -> b"; "Maybe :: data Maybe a"] ∅ =
  Ret (fold_left (fun acc d => <[fst d := declaration_of (fst d) (snd d)]> acc)
                 [("foldr", "(a -> b -> b) -> b -> [a] -> b"); ("Maybe", "data Maybe a")]
                 ∅).
Proof.
  apply (module_decls_of_browse_lines
           [("foldr", "(a -> b -> b) -> b -> [a] -> b"); ("Maybe", "data Maybe a")] ∅).
  repeat constructor.
Defined.

End Symbols.

Section Tools.
Import Launcher.

Lemma truthy_not_empty (s : string) : s <> "" -> truthy (Some s) = Some s.
Proof. intros H. unfold truthy. apply str_eqb_neq in H. now rewrite H. Qed.

Lemma not_found_message_not_empty (tool : string) :
  or_text (Some ("SublimeHaskell.ProcHelper: " +:+ tool +:+ " was not found on PATH!"))
          "?? unknown error -- no process." =
  "SublimeHaskell.ProcHelper: " +:+ tool +:+ " was not found on PATH!".
Proof. reflexivity. Qed.

(** X18. [ProcHelper.run_process] of a command that is not found on the
    path does not raise: it returns exit code -1, no output, and the message
    that names the command as the error text. *)
Theorem run_process_of_missing_command
    (pf : platform) (tool : string) (args : list string) (cwd : option string) :
  start pf (tool :: args) cwd = Missing ->
  run_process pf (tool :: args) cwd =
  Done ((-1)%Z, "",
        "SublimeHaskell.ProcHelper: " +:+ tool +:+ " was not found on PATH!").
Proof.
  intros H. unfold run_process, ProcHelper_open. rewrite H.
  cbn [and_then wait tool_process tool_process_err].
  now rewrite not_found_message_not_empty.
Qed.

(** X19. [invoke_tool] of an enabled tool whose command is not found on
    the path raises the tool-failure exception with exit code -1 and the
    not-found message, and neither disables the tool nor shows an error. *)
Theorem invoke_tool_of_missing_command
    {A : Type} (pf : platform) (tool : string) (args : list string) (tool_name : string)
    (mk_result : string -> A) (filename : option string) (on_line check_enabled : bool)
    (w : tool_world A) (dir : string) :
  is_enabled pf tool_name check_enabled w ->
  get_source_dir pf filename = Done dir ->
  start pf (tool :: args) (Some dir) = Missing ->
  invoke_tool pf (tool :: args) tool_name mk_result filename on_line check_enabled w =
  (Failed (ToolFailure tool_name (-1)
             ("SublimeHaskell.ProcHelper: " +:+ tool +:+ " was not found on PATH!")), w).
Proof.
  intros He Hd Hs. unfold invoke_tool, ProcHelper_open. rewrite Hd, Hs.
  cbn [wait tool_process tool_process_err]. rewrite not_found_message_not_empty.
  destruct He as [-> | He]; [reflexivity|].
  rewrite He. now destruct check_enabled.
Qed.

(** X20. When starting the tool fails with [ENOENT], [invoke_tool] returns
    [None], shows one error, and sets the tool's flag to [False], so that
    every later call that checks the flag returns [None] without doing
    anything. *)
Theorem invoke_tool_disables_tool_on_enoent
    {A : Type} (pf : platform) (command : list string) (tool_name : string)
    (mk_result : string -> A) (filename : option string) (on_line check_enabled : bool)
    (w : tool_world A) (dir : string) :
  is_enabled pf tool_name check_enabled w ->
  get_source_dir pf filename = Done dir ->
  start pf command (Some dir) = StartFails ENOENT ->
  let after :=
    snd (invoke_tool pf command tool_name mk_result filename on_line check_enabled w) in
  fst (invoke_tool pf command tool_name mk_result filename on_line check_enabled w)
    = Done None
  /\ flags (settings after) !! tool_enabled pf tool_name = Some false
  /\ length (shown after) = S (length (shown w))
  /\ forall command' mk_result' filename' on_line',
       invoke_tool pf command' tool_name mk_result' filename' on_line' true after
       = (Done None, after).
Proof.
  intros He Hd Hs. unfold invoke_tool at 1 2, ProcHelper_open. rewrite Hd, Hs.
  assert (E : (if check_enabled
               then match flags (settings w) !! tool_enabled pf tool_name with
                    | Some b => Done b
                    | None => Failed (Builtin AttributeError)
                    end
               else Done true) = Done true).
  { destruct He as [-> | He]; [reflexivity|]. rewrite He. now destruct check_enabled. }
  rewrite E. cbn [Z.eqb EPIPE ENOENT Pos.eqb fst snd]. cbv zeta.
  cbn [settings shown set_flag flags].
  split; [reflexivity|]. split; [apply lookup_insert_eq|].
  split; [rewrite length_app; cbn; lia|].
  intros command' mk_result' filename' on_line'. unfold invoke_tool.
  cbn [settings set_flag flags]. now rewrite lookup_insert_eq.
Qed.

Lemma lines_from_concat (text : string) :
  forall cur, String.concat "" (lines_from cur text) = cur +:+ text.
Proof.
  induction text as [|c t IH]; intros cur; cbn [lines_from].
  - rewrite app_empty_r. now destruct (str_eqb cur "") eqn:E;
      [apply str_eqb_eq in E as ->|].
  - destruct (Ascii.eqb c Client.LF).
    + rewrite concat_cons_empty, IH, app_empty_l, app_assoc_str.
      now rewrite app_cons, app_empty_l.
    + rewrite IH, app_assoc_str. now rewrite app_cons, app_empty_l.
Qed.

Lemma lines_shape_cons (l : string) (rest : list string) :
  whole_line l -> lines_shape rest -> lines_shape (l :: rest).
Proof. intros Hl Hr. destruct rest; cbn [lines_shape]; [now left | now split]. Qed.

Lemma lines_from_shape (text : string) :
  forall cur, Shapes.has_char Client.LF cur = false -> lines_shape (lines_from cur text).
Proof.
  induction text as [|c t IH]; intros cur Hcur; cbn [lines_from].
  - destruct (str_eqb cur "") eqn:E; [exact I|].
    apply str_eqb_neq in E. right. now split.
  - destruct (Ascii.eqb c Client.LF) eqn:Ec.
    + apply Ascii.eqb_eq in Ec as ->. apply lines_shape_cons.
      * now exists cur.
      * now apply IH.
    + apply IH. rewrite has_char_app, Hcur. unfold Shapes.has_char.
      cbn [list_ascii_of_string existsb]. rewrite Ascii.eqb_sym, Ec. reflexivity.
Qed.

(** X21. With an [on_line] callback and a tool that exits with code 0,
    [invoke_tool] returns [None] and hands the callback, in order, the lines
    of the tool's output. The lines put together give the output; each of
    them is a text without a line feed and then one line feed, except that the
    last one has no line feed, and is not empty, when the output does not end
    with a line feed. *)
Theorem invoke_tool_delivers_every_line
    {A : Type} (pf : platform) (command : list string) (tool_name : string)
    (mk_result : string -> A) (filename : option string) (check_enabled : bool)
    (w : tool_world A) (dir : string) (run : finished) :
  is_enabled pf tool_name check_enabled w ->
  get_source_dir pf filename = Done dir ->
  start pf command (Some dir) = Started run ->
  exit_code run = 0%Z ->
  invoke_tool pf command tool_name mk_result filename true check_enabled w =
  (Done None,
   mkWorld (settings w) (shown w)
           (delivered w ++ map mk_result (lines_of (stdout_text run))))
  /\ String.concat "" (lines_of (stdout_text run)) = stdout_text run
  /\ lines_shape (lines_of (stdout_text run)).
Proof.
  intros He Hd Hs Hx. split; [|split].
  - unfold invoke_tool, ProcHelper_open. rewrite Hd, Hs.
    cbn [wait tool_process]. rewrite Hx. cbn [Z.eqb negb].
    destruct He as [-> | He]; [reflexivity|].
    rewrite He. now destruct check_enabled.
  - apply lines_from_concat.
  - now apply lines_from_shape.
Qed.

(** X22. [make_extended_env] ignores the setting [add_to_path] (it is
    mapped together with an empty list); every variable other than [PATH] is
    as in [os.environ]; and without [add_standard_dirs] the new [PATH] is the
    old one, or the empty text. *)
Theorem extended_env_ignores_add_to_path
    (pf : platform) (st : plugin_settings) (dirs : list string) :
  make_extended_env pf (with_add_to_path st dirs) = make_extended_env pf st
  /\ (forall name, name <> "PATH" ->
        make_extended_env pf st !! name = os_environ pf !! name)
  /\ (add_standard_dirs st = false ->
        make_extended_env pf st !! "PATH"
        = Some (or_text (os_environ pf !! "PATH") "")).
Proof.
  unfold make_extended_env, with_add_to_path, map2.
  cbn [add_standard_dirs add_to_path].
  assert (E : forall l : list string,
             zip_with (normalize_path_with pf) l [] = []) by now intros [|? ?].
  rewrite !E. cbn [List.filter app]. split; [reflexivity|]. split.
  - intros name Hn. now rewrite lookup_insert_ne.
  - intros ->. now rewrite lookup_insert_eq.
Qed.

(** X23. [get_extended_env] computes the environment once: a second call
    returns the same environment and attribute whatever the settings and the
    platform have become, until [update_environment] recomputes it from the
    settings of that moment. *)
Theorem extended_env_is_computed_once
    (pf pf' : platform) (st st' : plugin_settings)
    (cache : option (gmap string string)) :
  let first := get_extended_env pf st cache in
  get_extended_env pf' st' (snd first) = first
  /\ fst (get_extended_env pf' st' (update_environment pf' st' (snd first)))
     = make_extended_env pf' st'.
Proof. destruct cache; cbn; now split. Qed.

Lemma In_insert_by_length x p l :
  In x (insert_by_length p l) <-> x = p \/ In x l.
Proof.
  induction l as [|q l IH]; cbn [insert_by_length].
  - cbn. intuition.
  - destruct (String.length p <=? String.length q); cbn [In];
      [rewrite IH|]; intuition.
Qed.

Lemma descending_insert p l :
  descending l -> descending (insert_by_length p l).
Proof.
  induction l as [|q l IH]; intros Hd; cbn [insert_by_length].
  - cbn. split; [intros ? []|exact I].
  - destruct Hd as [Hq Hd].
    destruct (String.length p <=? String.length q) eqn:E.
    + apply Nat.leb_le in E. cbn [descending]. split; [|now apply IH].
      intros x Hx. apply In_insert_by_length in Hx as [->|Hx]; [exact E|now apply Hq].
    + apply Nat.leb_gt in E. cbn [descending]. split; [|split; assumption].
      intros x [<-|Hx]; [lia|]. specialize (Hq x Hx). lia.
Qed.

Lemma sort_by_length_spec paths :
  forall acc,
    descending acc ->
    descending (fold_left (fun sorted p => insert_by_length p sorted) paths acc)
    /\ forall x, In x (fold_left (fun sorted p => insert_by_length p sorted) paths acc)
                 <-> In x paths \/ In x acc.
Proof.
  induction paths as [|p paths IH]; intros acc Hd; cbn [fold_left].
  - split; [exact Hd|]. intros x. cbn. intuition.
  - destruct (IH (insert_by_length p acc) (descending_insert p acc Hd)) as [H1 H2].
    split; [exact H1|]. intros x. rewrite H2, In_insert_by_length. cbn. intuition.
Qed.

Lemma find_in_descending f l :
  descending l ->
  match List.find f l with
  | Some p => In p l /\ f p = true
              /\ forall q, In q l -> f q = true -> String.length q <= String.length p
  | None => forall q, In q l -> f q = false
  end.
Proof.
  induction l as [|x l IH]; intros Hd; cbn [List.find].
  - intros q [].
  - destruct Hd as [Hx Hd]. destruct (f x) eqn:E.
    + split; [now left|]. split; [exact E|].
      intros q [<-|Hq] _; [lia | now apply Hx].
    + specialize (IH Hd). destruct (List.find f l) as [p|].
      * destruct IH as (Hin & Hf & Hmax). split; [now right|]. split; [exact Hf|].
        intros q [<-|Hq] Hfq; [congruence | now apply Hmax].
      * intros q [<-|Hq]; [exact E | now apply IH].
Qed.

(** X24. The directory the last loop of [get_source_dir] picks is one of
    the candidate paths, a prefix of the file name, and at least as long as
    every candidate that is a prefix of the file name; it picks none only if
    no candidate is a prefix. *)
Theorem source_dir_is_longest_prefix (paths : list string) (filename : string) :
  match pick_source_dir paths filename with
  | Some path =>
      In path paths /\ startswith filename path = true
      /\ forall q, In q paths -> startswith filename q = true ->
                   String.length q <= String.length path
  | None => forall q, In q paths -> startswith filename q = false
  end.
Proof.
  unfold pick_source_dir, sort_by_length.
  destruct (sort_by_length_spec paths [] I) as [Hd Hin].
  pose proof (find_in_descending (fun path => startswith filename path) _ Hd) as H.
  destruct (List.find _ _) as [p|].
  - destruct H as (Hp & Hf & Hmax). split; [apply Hin in Hp as [?|[]]; assumption|].
    split; [exact Hf|]. intros q Hq. apply Hmax, Hin. now left.
  - intros q Hq. apply H, Hin. now left.
Qed.

(** X25. For a file of a cabal project, when [hsinspect] is not found or
    exits with an error code, [get_source_dir] falls back to the directory of
    the file. *)
Theorem get_source_dir_without_hsinspect
    (pf : platform) (filename cabal_dir : string) :
  filename <> "" -> cabal_dir <> "" ->
  cabal_project_dir pf filename = Some cabal_dir ->
  (start pf ["hsinspect"; cabal_in_dir pf cabal_dir] None = Missing
   \/ exists run, start pf ["hsinspect"; cabal_in_dir pf cabal_dir] None = Started run
                  /\ exit_code run <> 0%Z) ->
  get_source_dir pf (Some filename) = Done (dirname filename).
Proof.
  intros Hf Hn Hc Hs. unfold get_source_dir.
  rewrite (truthy_not_empty _ Hf), Hc, (truthy_not_empty _ Hn).
  destruct Hs as [Hs | (run & Hs & Hx)].
  - unfold run_process, ProcHelper_open. rewrite Hs. reflexivity.
  - unfold run_process, ProcHelper_open. rewrite Hs.
    cbn [and_then wait tool_process fst snd].
    apply Z.eqb_neq in Hx. now rewrite Hx.
Qed.

Lemma run_process_of_missing_command_witness :
  run_process (plain_platform (fun _ _ => Missing) (fun _ => None))
              ["hsinspect"; "pkg.cabal"] None =
  Done ((-1)%Z, "", "SublimeHaskell.ProcHelper: hsinspect was not found on PATH!").
Proof.
  apply (run_process_of_missing_command
           (plain_platform (fun _ _ => Missing) (fun _ => None))
           "hsinspect" ["pkg.cabal"] None).
  reflexivity.
Defined.

Lemma invoke_tool_of_missing_command_witness :
  let w := mkWorld (mkSettings false [] None {[ "enable_hlint" := true ]}) [] [] in
  invoke_tool (plain_platform (fun _ _ => Missing) (fun _ => None))
              ["hlint"; "Foo.hs"] "hlint" (fun text : string => text) None false true w =
  (Failed (ToolFailure "hlint" (-1)
             "SublimeHaskell.ProcHelper: hlint was not found on PATH!"), w).
Proof.
  apply (invoke_tool_of_missing_command
           (plain_platform (fun _ _ => Missing) (fun _ => None))
           "hlint" ["Foo.hs"] "hlint" (fun text : string => text) None false true
           (mkWorld (mkSettings false [] None {[ "enable_hlint" := true ]}) [] [])
           "/home/user").
  - right. reflexivity.
  - reflexivity.
  - reflexivity.
Defined.

Lemma invoke_tool_disables_tool_on_enoent_witness :
  let pf := plain_platform (fun _ _ => StartFails ENOENT) (fun _ => None) in
  let w := mkWorld (mkSettings false [] None {[ "enable_hlint" := true ]}) [] [] in
  let after :=
    snd (invoke_tool pf ["hlint"; "Foo.hs"] "hlint" (fun text : string => text)
                     None false true w) in
  fst (invoke_tool pf ["hlint"; "Foo.hs"] "hlint" (fun text : string => text)
                   None false true w) = Done None
  /\ flags (settings after) !! tool_enabled pf "hlint" = Some false
  /\ length (shown after) = S (length (shown w))
  /\ forall command' mk_result' filename' on_line',
       invoke_tool pf command' "hlint" mk_result' filename' on_line' true after
       = (Done None, after).
Proof.
  apply (invoke_tool_disables_tool_on_enoent
           (plain_platform (fun _ _ => StartFails ENOENT) (fun _ => None))
           ["hlint"; "Foo.hs"] "hlint" (fun text : string => text) None false true
           (mkWorld (mkSettings false [] None {[ "enable_hlint" := true ]}) [] [])
           "/home/user").
  - right. reflexivity.
  - reflexivity.
  - reflexivity.
Defined.

Lemma invoke_tool_delivers_every_line_witness :
  let text := "Foo.hs:1:1: a" +:+ Client.newline +:+ "Foo.hs:2:1: b" in
  let w := mkWorld (mkSettings false [] None ∅) [] [] in
  invoke_tool (plain_platform (fun _ _ => Started (mkFinished 0 text ""))
                              (fun _ => None))
              ["hlint"; "Foo.hs"] "hlint" (fun line : string => line)
              None true false w =
  (Done None,
   mkWorld (settings w) (shown w)
           (delivered w ++ ["Foo.hs:1:1: a" +:+ Client.newline; "Foo.hs:2:1: b"]))
  /\ String.concat "" (lines_of text) = text
  /\ lines_shape (lines_of text).
Proof.
  apply (invoke_tool_delivers_every_line
           (plain_platform
              (fun _ _ => Started (mkFinished 0
                 ("Foo.hs:1:1: a" +:+ Client.newline +:+ "Foo.hs:2:1: b") ""))
              (fun _ => None))
           ["hlint"; "Foo.hs"] "hlint" (fun line : string => line) None false
           (mkWorld (mkSettings false [] None ∅) [] [])
           "/home/user"
           (mkFinished 0 ("Foo.hs:1:1: a" +:+ Client.newline +:+ "Foo.hs:2:1: b") "")).
  - left. reflexivity.
  - reflexivity.
  - reflexivity.
  - reflexivity.
Defined.

Lemma get_source_dir_without_hsinspect_witness :
  get_source_dir (plain_platform (fun _ _ => Missing) (fun _ => Some "/proj"))
                 (Some "/proj/src/Foo.hs") = Done "/proj/src".
Proof.
  apply (get_source_dir_without_hsinspect
           (plain_platform (fun _ _ => Missing) (fun _ => Some "/proj"))
           "/proj/src/Foo.hs" "/proj").
  - discriminate.
  - discriminate.
  - reflexivity.
  - left. reflexivity.
Defined.

End Tools.

Section GhcOptions.
Import Re Launcher Options.

(** [ghci_package_db] yields no package database. *)
Lemma ghci_package_db_outcome (pf : platform) (cabal : option string) :
  ghci_package_db pf cabal = Done None
  \/ exists e, ghci_package_db pf cabal = Failed (Builtin e).
Proof.
  unfold ghci_package_db. destruct cabal as [dir|]; [|now left].
  destruct (str_eqb dir "cabal"); [now left|].
  destruct (listdir pf dir) as [entries|e]; [|right; eauto].
  destruct (List.filter _ entries); [now left | right; eauto].
Qed.

(** X26. [ghci_package_db] raises [TypeError] whenever the directory
    holds an entry whose name starts like a package configuration (the text
    [packages-], anything, [.conf]): it joins the directory with the list of
    such entries, not with one of them. *)
Theorem ghci_package_db_raises_on_package_conf
    (pf : platform) (dir : string) (entries : list string) (pkg : string) :
  dir <> "cabal" ->
  listdir pf dir = Ret entries ->
  In pkg entries ->
  is_Some (re_match PACKAGE_CONF pkg) ->
  ghci_package_db pf (Some dir) = Failed (Builtin TypeError).
Proof.
  intros Hd Hl Hin Hm. unfold ghci_package_db.
  apply str_eqb_neq in Hd. rewrite Hd, Hl.
  destruct (List.filter _ entries) as [|x l] eqn:E; [|reflexivity].
  assert (Hx : In pkg (List.filter
                (fun pkg => bool_decide (is_Some (re_match PACKAGE_CONF pkg))) entries)).
  { apply filter_In. split; [exact Hin|]. now apply bool_decide_eq_true_2. }
  rewrite E in Hx. destruct Hx.
Qed.

Lemma ghci_package_db_raises_on_package_conf_witness :
  ghci_package_db
    (mkPlatform ∅ false (fun _ => true) (fun p => p) (fun p _ => p) [] ":" "/home/u" "/"
       (fun _ _ => Missing) (fun _ => None) (fun d => d)
       (fun _ => Failed (Builtin ValueError)) (fun t => t)
       (fun _ => Ret ["Setup.hs"; "packages-7.10.3.conf.d"]))
    (Some "/proj") = Failed (Builtin TypeError).
Proof.
  apply (ghci_package_db_raises_on_package_conf
           (mkPlatform ∅ false (fun _ => true) (fun p => p) (fun p _ => p) [] ":"
              "/home/u" "/"
              (fun _ _ => Missing) (fun _ => None) (fun d => d)
              (fun _ => Failed (Builtin ValueError)) (fun t => t)
              (fun _ => Ret ["Setup.hs"; "packages-7.10.3.conf.d"]))
           "/proj" ["Setup.hs"; "packages-7.10.3.conf.d"] "packages-7.10.3.conf.d").
  - discriminate.
  - reflexivity.
  - right. left. reflexivity.
  - vm_compute. eexists. reflexivity.
Defined.

(** X27. Whenever [get_ghc_opts] returns, its result is the configured
    options followed, for a file name that is given and not empty, by one
    [-i] option with the file's source directory: no [-package-db] option is
    ever added. *)
Theorem get_ghc_opts_adds_only_the_source_dir
    (pf : platform) (filename : option string) (add_package_db : bool)
    (cabal : option string) (st st' : plugin_settings) (opts : list string) :
  get_ghc_opts pf filename add_package_db cabal st = (Done opts, st') ->
  match truthy filename with
  | None => opts = configured st
  | Some f =>
      exists dir, get_source_dir pf (Some f) = Done dir
                  /\ opts = configured st ++ ["-i " +:+ dir]
  end.
Proof.
  unfold get_ghc_opts. intros H.
  assert (E : (if add_package_db then ghci_package_db pf cabal else Done None)
              = Done None
              \/ exists e, (if add_package_db then ghci_package_db pf cabal
                            else Done None) = Failed e).
  { destruct add_package_db; [|now left].
    destruct (ghci_package_db_outcome pf cabal) as [->|[e ->]]; eauto. }
  destruct E as [E|[e E]]; rewrite E in H; [|discriminate].
  cbn [each_of map] in H. rewrite app_nil_r in H.
  destruct (truthy filename) as [f|].
  - destruct (get_source_dir pf (Some f)) as [dir|e]; [|discriminate].
    injection H as <- _. now exists dir.
  - now injection H as <- _.
Qed.


(** X29. With no configured options, or an empty list of them,
    [get_ghc_opts] leaves the settings as they are. *)
Theorem get_ghc_opts_leaves_empty_configuration
    (pf : platform) (filename : option string) (add_package_db : bool)
    (cabal : option string) (st : plugin_settings) :
  ghc_opts st = None \/ ghc_opts st = Some [] ->
  snd (get_ghc_opts pf filename add_package_db cabal st) = st.
Proof.
  intros H. unfold get_ghc_opts, with_opts, shares_configured.
  destruct (if add_package_db then ghci_package_db pf cabal else Done None);
    [|reflexivity].
  destruct (truthy filename) as [f|]; [destruct (get_source_dir pf (Some f))|];
    destruct H as [-> | ->]; reflexivity.
Qed.

Lemma get_ghc_opts_adds_only_the_source_dir_witness :
  exists dir,
    get_source_dir (plain_platform (fun _ _ => Missing) (fun _ => Some "/proj"))
                   (Some "/proj/src/Foo.hs") = Done dir
    /\ ["-Wall"; "-i /proj/src"] =
       configured (mkSettings false [] (Some ["-Wall"]) ∅) ++ ["-i " +:+ dir].
Proof.
  apply (get_ghc_opts_adds_only_the_source_dir
           (plain_platform (fun _ _ => Missing) (fun _ => Some "/proj"))
           (Some "/proj/src/Foo.hs") true (Some "/proj")
           (mkSettings false [] (Some ["-Wall"]) ∅)
           (mkSettings false [] (Some ["-Wall"; "-i /proj/src"]) ∅)
           ["-Wall"; "-i /proj/src"]).
  reflexivity.
Defined.


Lemma get_ghc_opts_leaves_empty_configuration_witness :
  snd (get_ghc_opts (plain_platform (fun _ _ => Missing) (fun _ => Some "/proj"))
                    (Some "/proj/src/Foo.hs") true (Some "/proj")
                    (mkSettings false [] (Some []) ∅))
  = mkSettings false [] (Some []) ∅.
Proof.
  apply (get_ghc_opts_leaves_empty_configuration
           (plain_platform (fun _ _ => Missing) (fun _ => Some "/proj"))
           (Some "/proj/src/Foo.hs") true (Some "/proj")
           (mkSettings false [] (Some []) ∅)).
  right. reflexivity.
Defined.

End GhcOptions.
